(** * Fractary Forge, Python SDK: the registry resolution engine

    A shallow embedding of
      - fractary_forge/types/base_types.py        (ResolutionResult, AgentConfig, ToolConfig)
      - fractary_forge/errors/forge_error.py      (the exception classes)
      - fractary_forge/registry/resolvers/*.py    (Base, Local, Global, Remote resolver)
      - fractary_forge/registry/agent_registry.py (AgentRegistry)
      - fractary_forge/registry/tool_registry.py  (ToolRegistry)
      - fractary_forge/config/config_loader.py    (ConfigLoader, without save)
      - fractary_forge/definitions/api/*.py       (AgentAPI, ToolAPI, without to_yaml)

    Modelling conventions.
      - Python [str] is [string]; Rocq strings are byte strings, and the
        byte-wise order of UTF-8 text is the code-point order Python's
        [str.__lt__] uses.
      - [Optional[T]] is [option T]; Python truthiness ([if x:], [x or y]) is
        written out ([str_truthy], [py_or]).
      - A call that may raise returns an [outcome]: [Return v] or [Raise e].
      - The file system is a tree ([node]); a [pathlib.Path] is the list of its
        segments, [p / s] appends the segment [s].  Artifact names and versions
        are joined as single segments, and the registry root string is the key
        of a top-level entry of the tree.  [str(p)] joins the segments with "/";
        what pathlib does to the root string itself (dropping a leading "./")
        is not modelled.
      - The remote service is a function from requests to responses.
      - The registries run in a writer monad over [outcome] whose log holds
        their calls of the resolvers and of the logger, in program order.  The
        logger calls inside the resolvers are left out: they change no result. *)

From Stdlib Require Import String Ascii List Bool ZArith Lia.
From Stdlib Require Import OrderedTypeEx Sorted Permutation.
Import ListNotations.
Local Open Scope string_scope.
Local Open Scope list_scope.

Set Warnings "-register-all".

(** ** Python values, truthiness *)

(** What [yaml.safe_load] and [response.json()] hand back. *)
Inductive value : Type :=
| VNone
| VBool (b : bool)
| VInt (n : Z)
| VStr (s : string)
| VList (l : list value)
| VDict (d : list (string * value)).

Definition str_truthy (s : string) : bool := negb (s =? "").

(** [bool(v)] *)
Definition truthy (v : value) : bool :=
  match v with
  | VNone => false
  | VBool b => b
  | VInt n => negb (n =? 0)%Z
  | VStr s => str_truthy s
  | VList l => match l with [] => false | _ => true end
  | VDict d => match d with [] => false | _ => true end
  end.

(** [a or b] on [Optional[str]] *)
Definition py_or (a b : option string) : option string :=
  match a with
  | Some s => if str_truthy s then Some s else b
  | None => b
  end.

(** [if version:] on an [Optional[str]]: the string when it is truthy. *)
Definition if_str (a : option string) : option string :=
  match a with
  | Some s => if str_truthy s then Some s else None
  | None => None
  end.

Fixpoint assoc {A : Type} (k : string) (l : list (string * A)) : option A :=
  match l with
  | [] => None
  | (k', v) :: l' => if k =? k' then Some v else assoc k l'
  end.

(** ** errors/forge_error.py *)

Inductive exn : Type :=
| AgentNotFoundError (agent_name : string) (version : option string) (searched : list string)
| ToolNotFoundError (tool_name : string) (version : option string) (searched : list string)
| ResolutionError (name : string) (path : string)
| NetworkError (status_code : option Z) (url : option string)
| HTTPError (what : string)            (* httpx.HTTPError and its subclasses *)
| JSONDecodeError
| KeyError (key : string)
| TypeError
| AttributeError
| ValidationError (field : string)     (* pydantic *)
| OSError (what : string) (path : string)
| IndexError
| OtherException (what : string).

Inductive outcome (A : Type) : Type :=
| Return (a : A)
| Raise (e : exn).
Arguments Return {A} a.
Arguments Raise {A} e.

Definition obind {A B : Type} (m : outcome A) (k : A -> outcome B) : outcome B :=
  match m with
  | Return a => k a
  | Raise e => Raise e
  end.

(** [try: body  except <handled> as e: handler e] *)
Definition try_except {A : Type} (body : outcome A) (handled : exn -> bool)
                      (handler : exn -> outcome A) : outcome A :=
  match body with
  | Return a => Return a
  | Raise e => if handled e then handler e else Raise e
  end.

Declare Scope outcome_scope.
Delimit Scope outcome_scope with outcome.
Notation "x <- m ;; k" := (obind m (fun x => k))
  (at level 61, m at next level, right associativity) : outcome_scope.
Local Open Scope outcome_scope.

(** ** types/base_types.py *)

Record ResolutionResult : Type := mkResult {
  name : string;
  version : string;
  path : string;
  source : string;                       (* 'local', 'global', or 'remote' *)
  metadata : list (string * value)
}.

(** [result.source = s] *)
Definition set_source (r : ResolutionResult) (s : string) : ResolutionResult :=
  {| name := name r; version := version r; path := path r;
     source := s; metadata := metadata r |}.

(** The pydantic constructor: every field is validated against its
    annotation, in declaration order. *)
Definition ResolutionResult_init (n v p s m : value) : outcome ResolutionResult :=
  match n with
  | VStr n' =>
    match v with
    | VStr v' =>
      match p with
      | VStr p' =>
        match s with
        | VStr s' =>
          match m with
          | VDict m' => Return (mkResult n' v' p' s' m')
          | _ => Raise (ValidationError "metadata")
          end
        | _ => Raise (ValidationError "source")
        end
      | _ => Raise (ValidationError "path")
      end
    | _ => Raise (ValidationError "version")
    end
  | _ => Raise (ValidationError "name")
  end.

Record Config : Type := mkConfig {
  local_registry_path : option string;
  global_registry_path : option string;
  remote_registry_url : option string;
  cache_enabled : bool;
  cache_ttl : Z
}.

(** ** Strings: ["@" in name] and [name.split("@", 1)] *)

Definition at_sign : ascii := "@"%char.

(** [c in s] for a one-character [c] *)
Fixpoint str_contains (c : ascii) (s : string) : bool :=
  match s with
  | EmptyString => false
  | String a s' => if Ascii.eqb a c then true else str_contains c s'
  end.

(** The text before the first [c] (all of [s] when there is none). *)
Fixpoint str_before (c : ascii) (s : string) : string :=
  match s with
  | EmptyString => EmptyString
  | String a s' => if Ascii.eqb a c then EmptyString else String a (str_before c s')
  end.

(** The text after the first [c]. *)
Fixpoint str_after (c : ascii) (s : string) : string :=
  match s with
  | EmptyString => EmptyString
  | String a s' => if Ascii.eqb a c then s' else str_after c s'
  end.

(** [s.split(c, 1)] *)
Definition str_split1 (c : ascii) (s : string) : list string :=
  if str_contains c s then [str_before c s; str_after c s] else [s].

(** ** registry/resolvers/base_resolver.py *)

Module BaseResolver.

(** [_parse_name_version]: [parts[0], parts[1]] are read with [nth]; the
    list has two elements whenever the branch is taken. *)
Definition _parse_name_version (name : string) : string * option string :=
  if str_contains at_sign name then
    let parts := str_split1 at_sign name in
    (nth 0 parts "", Some (nth 1 parts ""))
  else (name, None).

Definition _match_version (available : string) (requested : option string) : bool :=
  match if_str requested with
  | None => true
  | Some r => available =? r
  end.

End BaseResolver.

(** ** The file system the local and global resolvers read *)

(** What [yaml.safe_load] makes of a file's text. *)
Inductive yaml_load : Type :=
| YamlError                 (* the loader raises *)
| YamlDoc (v : value).

Inductive node : Type :=
| File (content : yaml_load)
| Dir (entries : list (string * node)).

Definition Path := list string.

(** [str(p)] *)
Definition path_str (p : Path) : string := String.concat "/" p.

(** [p.parent] *)
Definition parent (p : Path) : Path := removelast p.

(** [p.name] *)
Definition basename (p : Path) : string := last p "".

Fixpoint lookup (n : node) (p : Path) : option node :=
  match p with
  | [] => Some n
  | s :: p' =>
    match n with
    | Dir es =>
      match assoc s es with
      | Some c => lookup c p'
      | None => None
      end
    | File _ => None
    end
  end.

(** [p.exists()] *)
Definition exists_ (fs : node) (p : Path) : bool :=
  match lookup fs p with Some _ => true | None => false end.

(** [p.is_dir()] *)
Definition is_dir (fs : node) (p : Path) : bool :=
  match lookup fs p with Some (Dir _) => true | _ => false end.

(** [p.iterdir()], the children in the order the directory lists them. *)
Definition iterdir (fs : node) (p : Path) : outcome (list Path) :=
  match lookup fs p with
  | Some (Dir es) => Return (map (fun e => p ++ [fst e]) es)
  | Some (File _) => Raise (OSError "NotADirectoryError" (path_str p))
  | None => Raise (OSError "FileNotFoundError" (path_str p))
  end.

(** [with open(p) as f: yaml.safe_load(f)] *)
Definition open_safe_load (fs : node) (p : Path) : outcome value :=
  match lookup fs p with
  | Some (File (YamlDoc v)) => Return v
  | Some (File YamlError) => Raise (OtherException "yaml.YAMLError")
  | Some (Dir _) => Raise (OSError "IsADirectoryError" (path_str p))
  | None => Raise (OSError "FileNotFoundError" (path_str p))
  end.

(** ** [list.sort(reverse=True)] on strings *)

(** Insert [x] into a descending list, before the first element not above it. *)
Fixpoint insert_desc (x : string) (l : list string) : list string :=
  match l with
  | [] => [x]
  | y :: l' => if String.leb y x then x :: l else y :: insert_desc x l'
  end.

Fixpoint sort_desc (l : list string) : list string :=
  match l with
  | [] => []
  | x :: l' => insert_desc x (sort_desc l')
  end.

(** ** registry/resolvers/local_resolver.py *)

Module LocalResolver.

Record t : Type := mk { registry_path : option Path }.

(** [Path(registry_path) if registry_path else None] of [BaseResolver.__init__] *)
Definition Path_of (registry_path : option string) : option Path :=
  match if_str registry_path with
  | Some s => Some [s]
  | None => None
  end.

Definition __init__ (registry_path : option string) : t :=
  let registry_path :=
    match registry_path with
    | None => Some "./.forge"
    | Some s => Some s
    end in
  mk (Path_of registry_path).

(** The body of the [try] block of [_create_result]. *)
Definition load_result (fs : node) (name version : string) (definition_path : Path)
  : outcome ResolutionResult :=
  definition <- open_safe_load fs definition_path ;;
  ResolutionResult_init (VStr name) (VStr version)
    (VStr (path_str (parent definition_path)))
    (VStr "local")
    (if truthy definition then definition else VDict []).

Definition _create_result (fs : node) (name version : string) (definition_path : Path)
  : outcome ResolutionResult :=
  try_except (load_result fs name version definition_path)
    (fun _ => true)
    (fun e => Raise (ResolutionError name (path_str definition_path))).

(** [[d.name for d in base_dir.iterdir() if d.is_dir()]] *)
Definition version_dirs (fs : node) (base_dir : Path) : outcome (list string) :=
  ds <- iterdir fs base_dir ;;
  Return (map basename (filter (is_dir fs) ds)).

Definition _find_version (fs : node) (base_dir : Path) (name : string)
                         (version : option string)
  : outcome (option ResolutionResult) :=
  if negb (exists_ fs base_dir) then Return None
  else
    match if_str version with
    | Some version =>
      let version_file := base_dir ++ [version; "definition.yaml"] in
      if exists_ fs version_file then
        r <- _create_result fs name version version_file ;; Return (Some r)
      else Return None
    | None =>
      versions <- version_dirs fs base_dir ;;
      match versions with
      | [] => Return None
      | _ =>
        match sort_desc versions with
        | [] => Raise IndexError
        | latest_version :: _ =>
          let version_file := base_dir ++ [latest_version; "definition.yaml"] in
          if exists_ fs version_file then
            r <- _create_result fs name latest_version version_file ;; Return (Some r)
          else Return None
        end
      end
    end.

(** The loop [for item_type in ["agents", "tools"]] of [resolve]. *)
Fixpoint search_types (fs : node) (root : Path) (parsed_name : string)
                      (version : option string) (item_types : list string)
  : outcome (option ResolutionResult) :=
  match item_types with
  | [] => Return None
  | item_type :: rest =>
    let type_dir := root ++ [item_type; parsed_name] in
    if negb (exists_ fs type_dir) then search_types fs root parsed_name version rest
    else
      result <- _find_version fs type_dir parsed_name version ;;
      match result with
      | Some r => Return (Some r)
      | None => search_types fs root parsed_name version rest
      end
  end.

Definition resolve (fs : node) (self : t) (name : string) (version : option string)
  : outcome (option ResolutionResult) :=
  match registry_path self with
  | None => Return None
  | Some root =>
    if negb (exists_ fs root) then Return None
    else
      let (parsed_name, parsed_version) := BaseResolver._parse_name_version name in
      let version := py_or version parsed_version in
      search_types fs root parsed_name version ["agents"; "tools"]
  end.

(** The innermost loop of [list_all]: the version directories of one name. *)
Fixpoint list_versions (fs : node) (name : string) (version_dirs : list Path)
                       (results : list ResolutionResult)
  : outcome (list ResolutionResult) :=
  match version_dirs with
  | [] => Return results
  | version_dir :: rest =>
    if negb (is_dir fs version_dir) then list_versions fs name rest results
    else
      let version := basename version_dir in
      let definition_path := version_dir ++ ["definition.yaml"] in
      if exists_ fs definition_path then
        result <- _create_result fs name version definition_path ;;
        list_versions fs name rest (results ++ [result])
      else list_versions fs name rest results
  end.

(** The middle loop: the name directories of one kind bucket. *)
Fixpoint list_names (fs : node) (name_dirs : list Path) (results : list ResolutionResult)
  : outcome (list ResolutionResult) :=
  match name_dirs with
  | [] => Return results
  | name_dir :: rest =>
    if negb (is_dir fs name_dir) then list_names fs rest results
    else
      vs <- iterdir fs name_dir ;;
      results <- list_versions fs (basename name_dir) vs results ;;
      list_names fs rest results
  end.

(** The outer loop over the kind buckets. *)
Fixpoint list_types (fs : node) (root : Path) (item_types : list string)
                    (results : list ResolutionResult)
  : outcome (list ResolutionResult) :=
  match item_types with
  | [] => Return results
  | item_type :: rest =>
    let type_dir := root ++ [item_type] in
    if negb (exists_ fs type_dir) then list_types fs root rest results
    else
      ns <- iterdir fs type_dir ;;
      results <- list_names fs ns results ;;
      list_types fs root rest results
  end.

Definition list_all (fs : node) (self : t) : outcome (list ResolutionResult) :=
  match registry_path self with
  | None => Return []
  | Some root =>
    if negb (exists_ fs root) then Return []
    else list_types fs root ["agents"; "tools"] []
  end.

End LocalResolver.

(** ** registry/resolvers/global_resolver.py *)

Module GlobalResolver.

(** [home] is [str(Path.home())]. *)
Definition __init__ (home : string) (registry_path : option string) : LocalResolver.t :=
  let registry_path :=
    match registry_path with
    | None => (home ++ "/.forge")%string
    | Some s => s
    end in
  LocalResolver.__init__ (Some registry_path).

Definition resolve (fs : node) (self : LocalResolver.t) (name : string)
                   (version : option string)
  : outcome (option ResolutionResult) :=
  result <- LocalResolver.resolve fs self name version ;;
  match result with
  | Some r => Return (Some (set_source r "global"))
  | None => Return None
  end.

(** Inherited from [LocalResolver]: the class does not override it. *)
Definition list_all (fs : node) (self : LocalResolver.t) : outcome (list ResolutionResult) :=
  LocalResolver.list_all fs self.

End GlobalResolver.

(** ** registry/resolvers/remote_resolver.py *)

Record response : Type := mkResponse {
  status_code : Z;
  body : option value          (* [response.json()]; [None] when it raises *)
}.

(** [httpx.Client.get(endpoint, params=params)] against the remote service. *)
Definition http := string -> list (string * string) -> outcome response.

(** [response.json()] *)
Definition response_json (r : response) : outcome value :=
  match body r with
  | Some v => Return v
  | None => Raise JSONDecodeError
  end.

(** [data[key]] *)
Definition getitem (data : value) (key : string) : outcome value :=
  match data with
  | VDict d =>
    match assoc key d with
    | Some v => Return v
    | None => Raise (KeyError key)
    end
  | _ => Raise TypeError
  end.

(** [data.get(key, default)] *)
Definition dict_get (data : value) (key : string) (default : value) : outcome value :=
  match data with
  | VDict d =>
    match assoc key d with
    | Some v => Return v
    | None => Return default
    end
  | _ => Raise AttributeError
  end.

(** [isinstance(e, httpx.HTTPError)] *)
Definition is_HTTPError (e : exn) : bool :=
  match e with
  | HTTPError _ => true
  | _ => false
  end.

Module RemoteResolver.

Record t : Type := mk { registry_url : string }.

Definition __init__ (registry_url : option string) : t :=
  mk match if_str registry_url with
     | Some u => u
     | None => "https://registry.fractary.com"
     end.

(** [ResolutionResult(name=data["name"], version=data["version"], ...)] *)
Definition decode (data : value) : outcome ResolutionResult :=
  n <- getitem data "name" ;;
  v <- getitem data "version" ;;
  p <- dict_get data "path" (VStr "") ;;
  m <- dict_get data "metadata" (VDict []) ;;
  ResolutionResult_init n v p (VStr "remote") m.

Definition resolve (get : http) (self : t) (name : string) (version : option string)
  : outcome (option ResolutionResult) :=
  let (parsed_name, parsed_version) := BaseResolver._parse_name_version name in
  let version := py_or version parsed_version in
  try_except
    (let endpoint := (registry_url self ++ "/api/v1/resolve")%string in
     let params := [("name", parsed_name)] in
     let params :=
       match if_str version with
       | Some v => params ++ [("version", v)]
       | None => params
       end in
     response <- get endpoint params ;;
     if (status_code response =? 404)%Z then Return None
     else if negb (status_code response =? 200)%Z then
       Raise (NetworkError (Some (status_code response)) None)
     else
       data <- response_json response ;;
       r <- decode data ;;
       Return (Some r))
    is_HTTPError
    (fun e => Raise (NetworkError None (Some (registry_url self)))).

(** The list comprehension of [list_all]. *)
Fixpoint decode_items (items : list value) : outcome (list ResolutionResult) :=
  match items with
  | [] => Return []
  | item :: rest =>
    r <- decode item ;;
    rs <- decode_items rest ;;
    Return (r :: rs)
  end.

(** Iterating [data.get("items", [])]. *)
Definition iter_items (v : value) : outcome (list value) :=
  match v with
  | VList l => Return l
  | VDict d => Return (map (fun kv => VStr (fst kv)) d)
  | VStr s => Return (map (fun c => VStr (String c EmptyString)) (list_ascii_of_string s))
  | _ => Raise TypeError
  end.

Definition list_all (get : http) (self : t) : outcome (list ResolutionResult) :=
  try_except
    (let endpoint := (registry_url self ++ "/api/v1/list")%string in
     response <- get endpoint [] ;;
     if negb (status_code response =? 200)%Z then
       Raise (NetworkError (Some (status_code response)) None)
     else
       data <- response_json response ;;
       items <- dict_get data "items" (VList []) ;;
       items <- iter_items items ;;
       decode_items items)
    is_HTTPError
    (fun e => Raise (NetworkError None (Some (registry_url self)))).

End RemoteResolver.

(** ** The registries: agent_registry.py and tool_registry.py

    The two files are the same program up to the artifact kind (the error
    class raised and the wording of the log lines), so one definition,
    indexed by [kind], embeds both. *)

Inductive kind : Type := Agent | Tool.
Inductive tier : Type := Local | Global | Remote.

Definition tier_name (t : tier) : string :=
  match t with
  | Local => "local"
  | Global => "global"
  | Remote => "remote"
  end.

Inductive level : Type := DEBUG | INFO | WARNING.

(** The log lines of the registries, by their format string. *)
Inductive message : Type :=
| Resolving (k : kind) (name : string) (version : option string)
| ResolvedFrom (k : kind) (name : string) (t : tier)
| FailedToResolveFromRemote (e : exn)
| FailedToListFromRemote (e : exn).

Inductive event : Type :=
| CallResolve (t : tier) (name : string) (version : option string)
| CallListAll (t : tier)
| Log (lvl : level) (msg : message).

(** What the program reads: the file system, the home directory and the
    remote service. *)
Record world : Type := mkWorld {
  fs : node;
  home : string;
  remote : http
}.

(** A computation of the registry: its outcome and what it did, in order. *)
Definition M (A : Type) : Type := (outcome A * list event)%type.

Definition ret {A : Type} (a : A) : M A := (Return a, []).
Definition raise {A : Type} (e : exn) : M A := (Raise e, []).
Definition emit (ev : event) : M unit := (Return tt, [ev]).

Definition bind {A B : Type} (m : M A) (k : A -> M B) : M B :=
  match fst m with
  | Return a => (fst (k a), snd m ++ snd (k a))
  | Raise e => (Raise e, snd m)
  end.

(** [try: body  except <handled> as e: handler e] *)
Definition try_catch {A : Type} (body : M A) (handled : exn -> bool)
                     (handler : exn -> M A) : M A :=
  match fst body with
  | Return a => body
  | Raise e =>
    if handled e then (fst (handler e), snd body ++ snd (handler e)) else body
  end.

(** A call of a resolver method: recorded, then its outcome. *)
Definition call {A : Type} (ev : event) (o : outcome A) : M A := (o, [ev]).

Definition log (lvl : level) (msg : message) : M unit := emit (Log lvl msg).

(** The tiers whose [resolve] was called, in call order. *)
Fixpoint consulted (tr : list event) : list tier :=
  match tr with
  | [] => []
  | CallResolve t _ _ :: tr' => t :: consulted tr'
  | _ :: tr' => consulted tr'
  end.

Declare Scope M_scope.
Delimit Scope M_scope with M.
Notation "x <- m ;; k" := (bind m (fun x => k))
  (at level 61, m at next level, right associativity) : M_scope.
Notation "m ;;; k" := (bind m (fun _ => k))
  (at level 61, right associativity) : M_scope.

Module Registry.

Local Open Scope M_scope.

Record t : Type := mk {
  artifact : kind;
  config : Config;
  local_resolver : LocalResolver.t;
  global_resolver : LocalResolver.t;      (* a [GlobalResolver] *)
  remote_resolver : RemoteResolver.t
}.

(** [AgentConfig()] / [ToolConfig()] *)
Definition default_config : Config := mkConfig None None None true 3600.

Definition __init__ (w : world) (k : kind) (config : option Config) : t :=
  let config :=
    match config with
    | Some c => c
    | None => default_config
    end in
  mk k config
     (LocalResolver.__init__ (local_registry_path config))
     (GlobalResolver.__init__ (home w) (global_registry_path config))
     (RemoteResolver.__init__ (remote_registry_url config)).

(** [AgentNotFoundError(name, details={"version": .., "searched": ..})] *)
Definition not_found (k : kind) (name : string) (version : option string)
                     (searched : list string) : exn :=
  match k with
  | Agent => AgentNotFoundError name version searched
  | Tool => ToolNotFoundError name version searched
  end.

(** [isinstance(e, AgentNotFoundError)] for the registry's own kind *)
Definition is_not_found (k : kind) (e : exn) : bool :=
  match k, e with
  | Agent, AgentNotFoundError _ _ _ => true
  | Tool, ToolNotFoundError _ _ _ => true
  | _, _ => false
  end.

(** [if self.config.remote_registry_url:] *)
Definition remote_configured (self : t) : bool :=
  match if_str (remote_registry_url (config self)) with
  | Some _ => true
  | None => false
  end.

(** The block under [# Try remote]: [Some r] when it returns [r] from inside
    the [try], [None] when control falls through to the [raise]. *)
Definition try_remote (w : world) (self : t) (name : string) (version : option string)
  : M (option ResolutionResult) :=
  if remote_configured self then
    try_catch
      (result <- call (CallResolve Remote name version)
                      (RemoteResolver.resolve (remote w) (remote_resolver self) name version) ;;
       match result with
       | Some r => log INFO (ResolvedFrom (artifact self) name Remote) ;;; ret (Some r)
       | None => ret None
       end)
      (fun _ => true)
      (fun e => log WARNING (FailedToResolveFromRemote e) ;;; ret None)
  else ret None.

(** [agent_resolve] / [tool_resolve] *)
Definition resolve (w : world) (self : t) (name : string) (version : option string)
                   (prefer_local : bool) : M ResolutionResult :=
  log DEBUG (Resolving (artifact self) name version) ;;;
  result <- call (CallResolve Local name version)
                 (LocalResolver.resolve (fs w) (local_resolver self) name version) ;;
  match result with
  | Some r => log INFO (ResolvedFrom (artifact self) name Local) ;;; ret r
  | None =>
    result <- call (CallResolve Global name version)
                   (GlobalResolver.resolve (fs w) (global_resolver self) name version) ;;
    match result with
    | Some r => log INFO (ResolvedFrom (artifact self) name Global) ;;; ret r
    | None =>
      result <- try_remote w self name version ;;
      match result with
      | Some r => ret r
      | None =>
        raise (not_found (artifact self) name version ["local"; "global"; "remote"])
      end
    end
  end.

(** [source is None or source == t] *)
Definition source_selects (source : option string) (t : string) : bool :=
  match source with
  | None => true
  | Some s => s =? t
  end.

(** [agent_list] / [tool_list] *)
Definition list_ (w : world) (self : t) (source : option string)
  : M (list ResolutionResult) :=
  let results := [] in
  results <-
    (if source_selects source "local" then
       rs <- call (CallListAll Local) (LocalResolver.list_all (fs w) (local_resolver self)) ;;
       ret (results ++ rs)
     else ret results) ;;
  results <-
    (if source_selects source "global" then
       rs <- call (CallListAll Global) (GlobalResolver.list_all (fs w) (global_resolver self)) ;;
       ret (results ++ rs)
     else ret results) ;;
  results <-
    (if source_selects source "remote" then
       if remote_configured self then
         try_catch
           (rs <- call (CallListAll Remote)
                       (RemoteResolver.list_all (remote w) (remote_resolver self)) ;;
            ret (results ++ rs))
           (fun _ => true)
           (fun e => log WARNING (FailedToListFromRemote e) ;;; ret results)
       else ret results
     else ret results) ;;
  ret results.

(** [agent_exists] / [tool_exists] *)
Definition exists_ (w : world) (self : t) (name : string) (version : option string)
  : M bool :=
  try_catch
    (resolve w self name version true ;;; ret true)
    (is_not_found (artifact self))
    (fun _ => ret false).

End Registry.

Module AgentRegistry.
Definition __init__ (w : world) (config : option Config) : Registry.t :=
  Registry.__init__ w Agent config.
Definition agent_resolve := Registry.resolve.
Definition agent_list := Registry.list_.
End AgentRegistry.

Module ToolRegistry.
Definition __init__ (w : world) (config : option Config) : Registry.t :=
  Registry.__init__ w Tool config.
Definition tool_resolve := Registry.resolve.
Definition tool_list := Registry.list_.
Definition tool_exists := Registry.exists_.
End ToolRegistry.

(** [agent_info] / [tool_info] of the registries: the resolved record as a
    mapping. *)
Definition registry_info (w : world) (self : Registry.t) (token : string)
                         (requested : option string) : M (list (string * value)) :=
  bind (Registry.resolve w self token requested true)
       (fun result =>
          ret [("name", VStr (name result));
               ("version", VStr (version result));
               ("path", VStr (path result));
               ("source", VStr (source result));
               ("metadata", VDict (metadata result))]).

Definition tool_info := registry_info.

(** ** config/config_loader.py

    A Python [dict] with string keys is the list of its items in insertion
    order, with distinct keys.  YAML mappings with keys that are not strings,
    floats and dates are outside [value].  Values are trees: the target and
    the source of a merge share no mutable object, as in [load], where the
    target is a fresh copy of the defaults and the source a freshly parsed
    document.  [str.lower] and [str.upper] are Python's; the loader takes them
    with its surroundings. *)

(** [s.split(c)] for a one-character separator: every occurrence cuts. *)
Fixpoint str_split (c : ascii) (s : string) : list string :=
  match s with
  | EmptyString => [EmptyString]
  | String a s' =>
    if Ascii.eqb a c then EmptyString :: str_split c s'
    else match str_split c s' with
         | [] => [String a EmptyString]
         | part :: parts => String a part :: parts
         end
  end.

(** [d[key] = v]: an existing key keeps its place, a new one goes last. *)
Fixpoint dict_set (key : string) (v : value) (d : list (string * value))
  : list (string * value) :=
  match d with
  | [] => [(key, v)]
  | (k, v') :: d' => if key =? k then (k, v) :: d' else (k, v') :: dict_set key v d'
  end.

Module ConfigLoader.

(** What leaves the loader: [ConfigError] with the path in its details, and
    the errors of subscripting a configuration section. *)
Inductive raised : Type :=
| ConfigError (path : string)
| TypeError
| KeyError (key : string).

Inductive result (A : Type) : Type :=
| Ok (a : A)
| Err (e : raised).
Arguments Ok {A} a.
Arguments Err {A} e.

Definition and_then {A B : Type} (m : result A) (k : A -> result B) : result B :=
  match m with
  | Ok a => k a
  | Err e => Err e
  end.

(** What the loader reads: the file at a path given as a string ([None]: no
    such file), the home directory, the environment. *)
Record surroundings : Type := mkSurroundings {
  file_at : string -> option node;
  home_dir : string;
  getenv : string -> option string;
  lower : string -> string;
  upper : string -> string
}.

Definition DEFAULT_CONFIG : list (string * value) :=
  [("registry", VDict [("local_path", VStr "./.forge");
                       ("global_path", VNone);
                       ("remote_url", VStr "https://registry.fractary.com")]);
   ("cache", VDict [("enabled", VBool true);
                    ("ttl", VInt 3600);
                    ("max_size", VInt 1000);
                    ("strategy", VStr "lru")]);
   ("agent", VDict [("auto_install", VBool false);
                    ("strict_validation", VBool true)]);
   ("tool", VDict [("timeout", VInt 30000)]);
   ("logging", VDict [("level", VStr "INFO")])].

Fixpoint _deep_copy (obj : value) : value :=
  match obj with
  | VDict d => VDict (map (fun kv => match kv with (k, v) => (k, _deep_copy v) end) d)
  | VList l => VList (map _deep_copy l)
  | _ => obj
  end.

(** [_deep_merge(target, source)] for a mapping [source]; the result is
    [target] after the call. *)
Fixpoint merge_into (source : value) (target : list (string * value)) {struct source}
  : list (string * value) :=
  match source with
  | VDict items =>
    (fix loop (items : list (string * value)) (target : list (string * value))
       : list (string * value) :=
       match items with
       | [] => target
       | (key, v) :: rest =>
         loop rest
           match assoc key target, v with
           | Some (VDict sub), VDict _ => dict_set key (VDict (merge_into v sub)) target
           | _, _ => dict_set key v target
           end
       end) items target
  | _ => target
  end.

Definition _deep_merge (target source : list (string * value)) : list (string * value) :=
  merge_into (VDict source) target.

(** The loop of [get]. *)
Fixpoint walk (parts : list string) (v : value) (default : value) : value :=
  match parts with
  | [] => v
  | part :: rest =>
    match v with
    | VDict d =>
      match assoc part d with
      | Some v' => walk rest v' default
      | None => default
      end
    | _ => default
    end
  end.

Definition get (config : list (string * value)) (key : string) (default : value) : value :=
  walk (str_split "."%char key) (VDict config) default.

(** [config[section][key]] *)
Definition getitem2 (config : list (string * value)) (section key : string)
  : result value :=
  match assoc section config with
  | None => Err (KeyError section)
  | Some (VDict d) =>
    match assoc key d with
    | Some v => Ok v
    | None => Err (KeyError key)
    end
  | Some _ => Err TypeError
  end.

(** [config[section][key] = v] *)
Definition setitem2 (config : list (string * value)) (section key : string) (v : value)
  : result (list (string * value)) :=
  match assoc section config with
  | None => Err (KeyError section)
  | Some (VDict d) => Ok (dict_set section (VDict (dict_set key v d)) config)
  | Some _ => Err TypeError
  end.

(** [_load_from_file]: every exception of the body becomes a [ConfigError]
    with the path. *)
Definition _load_from_file (s : surroundings) (path : string) (config : list (string * value))
  : result (list (string * value)) :=
  match file_at s path with
  | None => Ok config                                  (* not file_path.exists() *)
  | Some (Dir _) => Err (ConfigError path)             (* open raises *)
  | Some (File YamlError) => Err (ConfigError path)    (* yaml.YAMLError *)
  | Some (File (YamlDoc v)) =>
    let file_config := if truthy v then v else VDict [] in
    match file_config with
    | VDict source => Ok (_deep_merge config source)
    | _ => Err (ConfigError path)                      (* source.items() raises *)
    end
  end.

(** [if env_val := os.getenv(name): config[section][key] = f(env_val)] *)
Definition env_override (s : surroundings) (name section key : string)
           (f : string -> value) (config : list (string * value))
  : result (list (string * value)) :=
  match if_str (getenv s name) with
  | Some env_val => setitem2 config section key (f env_val)
  | None => Ok config
  end.

(** [env_val.lower() in ("true", "1", "yes")] *)
Definition is_yes (s : surroundings) (env_val : string) : bool :=
  existsb (String.eqb (lower s env_val)) ["true"; "1"; "yes"].

Definition _load_from_env (s : surroundings) (config : list (string * value))
  : result (list (string * value)) :=
  and_then (env_override s "FORGE_REGISTRY_LOCAL_PATH" "registry" "local_path" VStr config)
  (fun config =>
  and_then (env_override s "FORGE_REGISTRY_GLOBAL_PATH" "registry" "global_path" VStr config)
  (fun config =>
  and_then (env_override s "FORGE_REGISTRY_REMOTE_URL" "registry" "remote_url" VStr config)
  (fun config =>
  and_then (env_override s "FORGE_CACHE_ENABLED" "cache" "enabled"
                         (fun v => VBool (is_yes s v)) config)
  (fun config =>
  env_override s "FORGE_LOG_LEVEL" "logging" "level" (fun v => VStr (upper s v)) config)))).

(** The two default locations of [load]. *)
Definition default_locations (s : surroundings) : list string :=
  ["./.forge/config.yaml"; (home_dir s ++ "/.forge/config.yaml")%string].

(** The loop over the default locations: the first that exists is loaded. *)
Fixpoint load_first (s : surroundings) (paths : list string)
                    (config : list (string * value))
  : result (list (string * value)) :=
  match paths with
  | [] => Ok config
  | path :: rest =>
    match file_at s path with
    | Some _ => _load_from_file s path config
    | None => load_first s rest config
    end
  end.

Definition as_dict (v : value) : list (string * value) :=
  match v with
  | VDict d => d
  | _ => []
  end.

Definition load (s : surroundings) (config_path : option string)
  : result (list (string * value)) :=
  let config := as_dict (_deep_copy (VDict DEFAULT_CONFIG)) in
  and_then (getitem2 config "registry" "global_path")
  (fun global_path =>
  and_then (match global_path with
            | VNone => setitem2 config "registry" "global_path"
                                (VStr (home_dir s ++ "/.forge"))
            | _ => Ok config
            end)
  (fun config =>
  and_then (match if_str config_path with
            | Some path => _load_from_file s path config
            | None => load_first s (default_locations s) config
            end)
  (fun config => _load_from_env s config))).

(** [load_config] *)
Definition load_config (s : surroundings) (config_path : option string)
  : result (list (string * value)) :=
  load s config_path.

End ConfigLoader.

(** ** definitions/api/agent_api.py and tool_api.py

    The two files are the same program up to the artifact kind: the error
    class of a missing file, the metadata model and the key of its last field
    ("dependencies" for an agent, "inputSchema" for a tool).  The pydantic
    constructor of the metadata model and [str(Path(path))] are taken with the
    surroundings. *)

Module DefinitionAPI.

Record Metadata : Type := mkMetadata {
  name : string;
  version : string;
  description : value;
  author : value;
  tags : value;
  last : value                 (* dependencies / input_schema *)
}.

Inductive message : Type :=
| InvalidYAML
| DefinitionIsEmpty
| MissingRequiredField
| NothingLoaded.

Inductive raised : Type :=
| NotFoundError (k : kind) (path : string)      (* details: reason "File not found" *)
| ValidationError (msg : message) (field : option string) (path : option string)
| ModelError                                    (* pydantic rejects the metadata *)
| Builtin (e : exn).

Inductive result (A : Type) : Type :=
| Ok (a : A)
| Err (e : raised).
Arguments Ok {A} a.
Arguments Err {A} e.

Record surroundings : Type := mkSurroundings {
  file_at : string -> option node;
  str_of_path : string -> string;               (* str(Path(path)) *)
  model : kind -> value -> value -> value -> value -> value -> value -> option Metadata
}.

Record t : Type := mk {
  artifact : kind;
  definition_path : option string;
  metadata : option Metadata;
  definition : value
}.

Definition set_definition (self : t) (v : value) : t :=
  mk (artifact self) (definition_path self) (metadata self) v.
Definition set_metadata (self : t) (m : option Metadata) : t :=
  mk (artifact self) (definition_path self) m (definition self).
Definition set_definition_path (self : t) (p : option string) : t :=
  mk (artifact self) p (metadata self) (definition self).

(** [field in container] *)
Definition py_in (field : string) (container : value) : result bool :=
  match container with
  | VDict d => Ok match assoc field d with Some _ => true | None => false end
  | VList l => Ok (existsb (fun x => match x with VStr s => s =? field | _ => false end) l)
  | VStr s => Ok match String.index 0 field s with Some _ => true | None => false end
  | _ => Err (Builtin TypeError)
  end.

Definition required_fields : list string := ["name"; "version"; "description"].

(** The loop of [_validate_definition]. *)
Fixpoint check_fields (fields : list string) (definition : value) : result unit :=
  match fields with
  | [] => Ok tt
  | field :: rest =>
    match py_in field definition with
    | Err e => Err e
    | Ok false => Err (ValidationError MissingRequiredField (Some field) None)
    | Ok true => check_fields rest definition
    end
  end.

Definition _validate_definition (self : t) : result unit :=
  if negb (truthy (definition self)) then Err (ValidationError DefinitionIsEmpty None None)
  else check_fields required_fields (definition self).

Definition last_key (k : kind) : string :=
  match k with
  | Agent => "dependencies"
  | Tool => "inputSchema"
  end.

Definition lift {A : Type} (o : outcome A) : result A :=
  match o with
  | Return a => Ok a
  | Raise e => Err (Builtin e)
  end.

Definition and_then {A B : Type} (m : result A) (k : A -> result B) : result B :=
  match m with
  | Ok a => k a
  | Err e => Err e
  end.

(** The arguments of the metadata constructor, evaluated left to right. *)
Definition _extract_metadata (s : surroundings) (self : t) : result t :=
  if negb (truthy (definition self)) then Ok self
  else
    let d := definition self in
    and_then (lift (getitem d "name")) (fun n =>
    and_then (lift (getitem d "version")) (fun v =>
    and_then (lift (dict_get d "description" VNone)) (fun ds =>
    and_then (lift (dict_get d "author" VNone)) (fun a =>
    and_then (lift (dict_get d "tags" (VList []))) (fun tg =>
    and_then (lift (dict_get d (last_key (artifact self)) (VDict []))) (fun l =>
    match model s (artifact self) n v ds a tg l with
    | Some m => Ok (set_metadata self (Some m))
    | None => Err ModelError
    end)))))).

(** [load]: the outcome and the object afterwards. *)
Definition load (s : surroundings) (self : t) (path : string) : result unit * t :=
  match file_at s path with
  | None => (Err (NotFoundError (artifact self) (str_of_path s path)), self)
  | Some (Dir _) => (Err (Builtin (OSError "IsADirectoryError" path)), self)
  | Some (File YamlError) => (Err (ValidationError InvalidYAML None (Some path)), self)
  | Some (File (YamlDoc v)) =>
    let self := set_definition self v in
    match _validate_definition self with
    | Err e => (Err e, self)
    | Ok _ =>
      match _extract_metadata s self with
      | Err e => (Err e, self)
      | Ok self => (Ok tt, set_definition_path self (Some path))
      end
    end
  end.

Definition __init__ (s : surroundings) (k : kind) (definition_path : option string)
  : result unit * t :=
  let self := mk k definition_path None VNone in
  match if_str definition_path with
  | Some path => load s self path
  | None => (Ok tt, self)
  end.

Definition get_name (self : t) : result string :=
  match metadata self with
  | None => Err (ValidationError NothingLoaded None None)
  | Some m => Ok (name m)
  end.

Definition get_version (self : t) : result string :=
  match metadata self with
  | None => Err (ValidationError NothingLoaded None None)
  | Some m => Ok (version m)
  end.

Definition get_description (self : t) : value :=
  match metadata self with
  | None => VNone
  | Some m => description m
  end.

Definition get_tags (self : t) : value :=
  match metadata self with
  | None => VList []
  | Some m => tags m
  end.

(** [get_dependencies] / [get_input_schema] *)
Definition get_last (self : t) : value :=
  match metadata self with
  | None => VDict []
  | Some m => last m
  end.

Definition to_dict (self : t) : value :=
  if negb (truthy (definition self)) then VDict [] else definition self.

End DefinitionAPI.

(** ** Sample registries *)

Definition definition (n v : string) : node :=
  File (YamlDoc (VDict [("name", VStr n); ("version", VStr v);
                        ("description", VStr "sample")])).

Definition version_dir (n v : string) : node :=
  Dir [("definition.yaml", definition n v)].

(** One registry root [./.forge] holding the given kind buckets. *)
Definition forge (buckets : list (string * node)) : node :=
  Dir [("./.forge", Dir buckets)].

(** agents/a with the versions 10.0.0 and 2.0.0, both documented. *)
Definition fs_10_and_2 : node :=
  forge [("agents", Dir [("a", Dir [("10.0.0", version_dir "a" "10.0.0");
                                    ("2.0.0", version_dir "a" "2.0.0")])])].

(** agents/a with the versions 1.0.0 (documented) and 2.0.0 (an empty
    directory). *)
Definition fs_latest_empty : node :=
  forge [("agents", Dir [("a", Dir [("1.0.0", version_dir "a" "1.0.0");
                                    ("2.0.0", Dir [])])])].

Definition local_default : LocalResolver.t := LocalResolver.__init__ None.

(** The name x in both kind buckets: agents/x/1.0.0 and tools/x/2.0.0. *)
Definition fs_both_buckets : node :=
  forge [("agents", Dir [("x", Dir [("1.0.0", version_dir "x" "1.0.0")])]);
         ("tools", Dir [("x", Dir [("2.0.0", version_dir "x" "2.0.0")])])].

(** agents/a/1.0.0 whose definition document does not parse. *)
Definition fs_corrupt : node :=
  forge [("agents", Dir [("a", Dir [("1.0.0", Dir [("definition.yaml", File YamlError)])])])].

(** A machine with no registry directory at all. *)
Definition fs_empty : node := Dir [].

(** Only the user-level registry of the user whose home is /home/u. *)
Definition fs_global_only : node :=
  Dir [("/home/u/.forge",
        Dir [("agents", Dir [("a", Dir [("1.0.0", version_dir "a" "1.0.0")])])])].

Definition global_default : LocalResolver.t := GlobalResolver.__init__ "/home/u" None.

(** Remote services: unreachable; answering 200 with a given body. *)
Definition remote_down : http := fun _ _ => Raise (HTTPError "ConnectError").
Definition remote_answers (data : value) : http :=
  fun _ _ => Return (mkResponse 200 (Some data)).
Definition remote_default : RemoteResolver.t := RemoteResolver.__init__ None.

Definition config_with_remote : Config :=
  mkConfig None None (Some "https://registry.example") true 3600.

(** Worlds: no registry anywhere and the remote service down; a corrupt
    project-level record next to a remote service that has the artifact; a
    good project-level record with the remote service down. *)
Definition world_nothing : world := mkWorld fs_empty "/home/u" remote_down.
Definition world_corrupt_local : world :=
  mkWorld fs_corrupt "/home/u"
          (remote_answers (VDict [("name", VStr "a"); ("version", VStr "1.0.0")])).
Definition world_local_only : world := mkWorld fs_10_and_2 "/home/u" remote_down.

Definition agents_no_remote (w : world) : Registry.t := AgentRegistry.__init__ w None.
Definition agents_with_remote (w : world) : Registry.t :=
  AgentRegistry.__init__ w (Some config_with_remote).

(** ** Vocabulary of the properties *)

(** [m] is a lexically greatest element of [l]. *)
Definition lex_max (m : string) (l : list string) : Prop :=
  In m l /\ forall v, In v l -> String.leb v m = true.

(** A document is loadable when the loader gives a mapping or a falsy value. *)
Definition loadable (fs : node) (p : Path) : Prop :=
  exists doc, open_safe_load fs p = Return doc /\
              (truthy doc = false \/ exists d, doc = VDict d).

(** The version whose definition document [_find_version] goes for: the
    requested one, or without a request the head of the descending sort of
    the version directories. *)
Definition selects (fs : node) (base_dir : Path) (requested : option string)
                   (ver : string) : Prop :=
  if_str requested = Some ver \/
  (if_str requested = None /\
   exists vs, LocalResolver.version_dirs fs base_dir = Return vs /\
              hd_error (sort_desc vs) = Some ver).

(** The local resolver meets an unreadable document in the bucket [bucket]:
    in agents, or in tools after agents had nothing. *)
Definition meets_corrupt (fs : node) (root : Path) (token : string)
           (requested : option string) (bucket : string) (document : Path) : Prop :=
  let pn := fst (BaseResolver._parse_name_version token) in
  let v := py_or requested (snd (BaseResolver._parse_name_version token)) in
  exists_ fs root = true /\
  (bucket = "agents" \/
   (bucket = "tools" /\
    LocalResolver._find_version fs (root ++ ["agents"; pn]) pn v = Return None)) /\
  exists ver,
    selects fs (root ++ [bucket; pn]) v ver /\
    document = root ++ [bucket; pn] ++ [ver; "definition.yaml"] /\
    exists_ fs document = true /\
    ~ loadable fs document.

(** A record of the registry under [root]: a definition document at
    root/bucket/n/v/definition.yaml, in one of the two kind buckets, from which
    [_create_result] builds [r]. *)
Definition documented (fs : node) (root : Path) (r : ResolutionResult) : Prop :=
  exists bucket n v,
    (bucket = "agents" \/ bucket = "tools") /\
    exists_ fs (root ++ [bucket; n; v; "definition.yaml"]) = true /\
    LocalResolver._create_result fs n v (root ++ [bucket; n; v; "definition.yaml"])
      = Return r.

(** The request [RemoteResolver.resolve] sends: the endpoint and the query
    parameters. *)
Definition resolve_request (self : RemoteResolver.t) (token : string)
           (requested : option string) : string * list (string * string) :=
  let pn := fst (BaseResolver._parse_name_version token) in
  let v := py_or requested (snd (BaseResolver._parse_name_version token)) in
  ((RemoteResolver.registry_url self ++ "/api/v1/resolve")%string,
   match if_str v with
   | Some ver => [("name", pn); ("version", ver)]
   | None => [("name", pn)]
   end).

(** A project-level registry whose agents/a is a plain file. *)
Definition fs_name_is_file : node :=
  forge [("agents", Dir [("a", File (YamlDoc VNone))])].

(** The two errors of reading a registry directory: an existing definition
    document that cannot be loaded, and a directory listing of something that
    is not a directory. *)
Definition unreadable_document (fs : node) (e : exn) : Prop :=
  exists n document,
    e = ResolutionError n (path_str document) /\
    exists_ fs document = true /\ ~ loadable fs document.

Definition listed_a_file (fs : node) (e : exn) : Prop :=
  exists dir,
    e = OSError "NotADirectoryError" (path_str dir) /\
    exists_ fs dir = true /\ is_dir fs dir = false.

(** The configuration [load] starts from: the defaults with the user-level
    registry path filled in. *)
Definition builtin_defaults (s : ConfigLoader.surroundings) : list (string * value) :=
  [("registry", VDict [("local_path", VStr "./.forge");
                       ("global_path", VStr (ConfigLoader.home_dir s ++ "/.forge"));
                       ("remote_url", VStr "https://registry.fractary.com")]);
   ("cache", VDict [("enabled", VBool true);
                    ("ttl", VInt 3600);
                    ("max_size", VInt 1000);
                    ("strategy", VStr "lru")]);
   ("agent", VDict [("auto_install", VBool false);
                    ("strict_validation", VBool true)]);
   ("tool", VDict [("timeout", VInt 30000)]);
   ("logging", VDict [("level", VStr "INFO")])].

(** A configuration file [_load_from_file] accepts: a YAML document that is
    a mapping or is falsy. *)
Definition config_file_ok (n : node) : Prop :=
  exists v, n = File (YamlDoc v) /\ (truthy v = false \/ exists d, v = VDict d).

(** The environment variable is set to a non-empty string. *)
Definition env_set (s : ConfigLoader.surroundings) (name v : string) : Prop :=
  ConfigLoader.getenv s name = Some v /\ v <> "".

(** None of the five variables [_load_from_env] reads is set. *)
Definition env_clean (s : ConfigLoader.surroundings) : Prop :=
  forall name,
    In name ["FORGE_REGISTRY_LOCAL_PATH"; "FORGE_REGISTRY_GLOBAL_PATH";
             "FORGE_REGISTRY_REMOTE_URL"; "FORGE_CACHE_ENABLED"; "FORGE_LOG_LEVEL"] ->
    if_str (ConfigLoader.getenv s name) = None.

(** [k in d] *)
Definition has_key (k : string) (d : list (string * value)) : bool :=
  match assoc k d with
  | Some _ => true
  | None => false
  end.

(** Surroundings for the examples: ASCII case conversion, a home directory,
    given files and environment. *)
Definition ascii_lower (c : ascii) : ascii :=
  let n := nat_of_ascii c in
  if andb (Nat.leb 65 n) (Nat.leb n 90) then ascii_of_nat (n + 32) else c.

Definition ascii_upper (c : ascii) : ascii :=
  let n := nat_of_ascii c in
  if andb (Nat.leb 97 n) (Nat.leb n 122) then ascii_of_nat (n - 32) else c.

Fixpoint str_map (f : ascii -> ascii) (s : string) : string :=
  match s with
  | EmptyString => EmptyString
  | String c s' => String (f c) (str_map f s')
  end.

Definition sample_surroundings (files : string -> option node)
           (env : string -> option string) : ConfigLoader.surroundings :=
  ConfigLoader.mkSurroundings files "/home/u" env (str_map ascii_lower) (str_map ascii_upper).

Definition no_files : string -> option node := fun _ => None.
Definition no_env : string -> option string := fun _ => None.

(** A project configuration file that moves the local registry. *)
Definition project_config : string -> option node :=
  fun p => if p =? "./.forge/config.yaml"
           then Some (File (YamlDoc (VDict [("registry",
                                             VDict [("local_path", VStr "./registry")])])))
           else None.

Definition env_local_path : string -> option string :=
  fun n => if n =? "FORGE_REGISTRY_LOCAL_PATH" then Some "/srv/forge" else None.

(** The first required field a mapping lacks, in the order the definition
    API checks them. *)
Definition first_missing (d : list (string * value)) : option string :=
  find (fun field => negb (has_key field d)) DefinitionAPI.required_fields.

(** Surroundings for the examples of the definition API: one definition
    file, paths printed as given, and a metadata model that takes a string
    name and a string version. *)
Definition sample_model (k : kind) (n v ds a tg l : value) : option DefinitionAPI.Metadata :=
  match n, v with
  | VStr n', VStr v' => Some (DefinitionAPI.mkMetadata n' v' ds a tg l)
  | _, _ => None
  end.

Definition api_surroundings (path : string) (content : yaml_load)
  : DefinitionAPI.surroundings :=
  DefinitionAPI.mkSurroundings
    (fun p => if p =? path then Some (File content) else None)
    (fun p => p)
    sample_model.

Definition fresh_api (k : kind) : DefinitionAPI.t := DefinitionAPI.mk k None None VNone.





(** A remote service that has a-1.0.0, next to no registry directory. *)
Definition world_remote_only : world :=
  mkWorld fs_empty "/home/u"
          (remote_answers (VDict [("name", VStr "a"); ("version", VStr "1.0.0")])).


(** * Properties *)

(** ** Identifier parsing *)

Section Parsing.

Variable c : ascii.

Lemma str_contains_In (s : string) :
  str_contains c s = true <-> In c (list_ascii_of_string s).
Proof.
  induction s as [|a s IH]; simpl.
  - split; [discriminate | contradiction].
  - destruct (Ascii.eqb_spec a c) as [->|Hne].
    + split; auto.
    + rewrite IH. split; [auto | intros [H|H]; [contradiction | assumption]].
Qed.

Lemma str_contains_false (s : string) :
  str_contains c s = false <-> ~ In c (list_ascii_of_string s).
Proof.
  rewrite <- str_contains_In. destruct (str_contains c s); split; congruence.
Qed.

Lemma str_contains_append (n v : string) :
  str_contains c (n ++ String c v) = true.
Proof.
  induction n as [|a n IH]; simpl.
  - now rewrite Ascii.eqb_refl.
  - destruct (Ascii.eqb a c); auto.
Qed.

Lemma str_before_append (n v : string) :
  str_contains c n = false -> str_before c (n ++ String c v) = n.
Proof.
  induction n as [|a n IH]; simpl.
  - now rewrite Ascii.eqb_refl.
  - destruct (Ascii.eqb a c); [discriminate|]. intros H. now rewrite IH.
Qed.

Lemma str_after_append (n v : string) :
  str_contains c n = false -> str_after c (n ++ String c v) = v.
Proof.
  induction n as [|a n IH]; simpl.
  - now rewrite Ascii.eqb_refl.
  - destruct (Ascii.eqb a c); [discriminate|]. auto.
Qed.

(** A string that holds [c] splits around its first occurrence. *)
Lemma str_split_first (s : string) :
  str_contains c s = true ->
  s = (str_before c s ++ String c (str_after c s))%string /\
  str_contains c (str_before c s) = false.
Proof.
  induction s as [|a s IH]; simpl; [discriminate|].
  destruct (Ascii.eqb_spec a c) as [->|Hne]; simpl.
  - auto.
  - intros H. destruct (IH H) as [E1 E2]. split.
    + now rewrite <- E1.
    + destruct (Ascii.eqb_spec a c); [contradiction | assumption].
Qed.

End Parsing.

(** The two subscripts of [_parse_name_version] are in range. *)
Lemma parse_parts_length (token : string) :
  str_contains at_sign token = true ->
  List.length (str_split1 at_sign token) = 2.
Proof. intros H. unfold str_split1. now rewrite H. Qed.

(** C9: a token without "@" is returned whole with no version; a token
    with an "@" is cut at the first one only: the name is the text before it
    (which holds no "@") and the version is everything after it, further
    "@" included, as in "a@b@c". *)
Theorem parse_identifier_first_at (token : string) :
  (~ In at_sign (list_ascii_of_string token) ->
   BaseResolver._parse_name_version token = (token, None)) /\
  (forall n v : string,
     ~ In at_sign (list_ascii_of_string n) ->
     token = (n ++ String at_sign v)%string ->
     BaseResolver._parse_name_version token = (n, Some v)) /\
  (In at_sign (list_ascii_of_string token) ->
   exists n v : string,
     token = (n ++ String at_sign v)%string /\
     ~ In at_sign (list_ascii_of_string n) /\
     BaseResolver._parse_name_version token = (n, Some v)).
Proof.
  unfold BaseResolver._parse_name_version, str_split1.
  split; [|split].
  - intros H. apply str_contains_false in H. now rewrite H.
  - intros n v Hn ->. apply str_contains_false in Hn.
    rewrite str_contains_append. simpl.
    now rewrite str_before_append, str_after_append.
  - intros H. apply str_contains_In in H. rewrite H. simpl.
    destruct (str_split_first _ _ H) as [E Hb].
    exists (str_before at_sign token), (str_after at_sign token).
    repeat split; auto. now apply str_contains_false.
Qed.

Lemma parse_identifier_first_at_witness :
  ~ In at_sign (list_ascii_of_string "a") /\
  "a@b@c" = ("a" ++ String at_sign "b@c")%string /\
  BaseResolver._parse_name_version "a@b@c" = ("a", Some "b@c").
Proof.
  assert (Hn : ~ In at_sign (list_ascii_of_string "a")).
  { simpl. intros [H|[]]. discriminate H. }
  split; [exact Hn|]. split; [reflexivity|].
  exact (proj1 (proj2 (parse_identifier_first_at "a@b@c")) "a" "b@c" Hn eq_refl).
Defined.

(** ** The descending sort *)

Lemma leb_iff (a b : string) :
  String.leb a b = true <-> a = b \/ String_as_OT.lt a b.
Proof.
  unfold String.leb. destruct (String.compare a b) eqn:E.
  - apply String.compare_eq_iff in E. tauto.
  - apply String_as_OT.cmp_lt in E. tauto.
  - split; [discriminate|]. intros [->|H].
    + assert (String.compare b b = Eq) by now apply String_as_OT.cmp_eq.
      congruence.
    + apply String_as_OT.cmp_lt in H. unfold String_as_OT.cmp in H. congruence.
Qed.

Lemma leb_refl (a : string) : String.leb a a = true.
Proof. apply leb_iff. now left. Qed.

Lemma leb_trans (a b c : string) :
  String.leb a b = true -> String.leb b c = true -> String.leb a c = true.
Proof.
  rewrite !leb_iff. intros [->|H1] [->|H2]; auto.
  right. eapply String_as_OT.lt_trans; eassumption.
Qed.

Lemma insert_desc_In (x y : string) (l : list string) :
  In y (insert_desc x l) <-> y = x \/ In y l.
Proof.
  induction l as [|h l IH]; simpl.
  - intuition.
  - destruct (String.leb h x); simpl; [intuition|]. rewrite IH. intuition.
Qed.

Lemma sort_desc_In (y : string) (l : list string) :
  In y (sort_desc l) <-> In y l.
Proof.
  induction l as [|h l IH]; simpl; [tauto|].
  rewrite insert_desc_In, IH. intuition.
Qed.

Lemma insert_desc_head (x m : string) (l rest : list string) :
  (forall h t, l = h :: t -> forall v, In v l -> String.leb v h = true) ->
  insert_desc x l = m :: rest ->
  forall v, In v (x :: l) -> String.leb v m = true.
Proof.
  intros Hl. destruct l as [|h t]; simpl.
  - intros [= <- <-] v [->|[]]. apply leb_refl.
  - destruct (String.leb h x) eqn:E.
    + intros [= <- <-] v [->|Hv]; [apply leb_refl|].
      eapply leb_trans; [|exact E]. now apply (Hl h t eq_refl).
    + intros [= <- <-] v [->|Hv].
      * destruct (String.leb_total h v); [congruence | assumption].
      * now apply (Hl h t eq_refl).
Qed.

Lemma sort_desc_head_above (l : list string) (m : string) (rest : list string) :
  sort_desc l = m :: rest -> forall v, In v l -> String.leb v m = true.
Proof.
  revert m rest. induction l as [|x l IH]; simpl; [discriminate|].
  intros m rest E v Hv.
  eapply insert_desc_head; [|exact E|].
  - intros h t Eh w Hw. apply (IH h t Eh). now apply sort_desc_In.
  - destruct Hv as [->|Hv]; [now left|]. right. now apply sort_desc_In.
Qed.

(** The first element of the sorted list is a greatest element. *)
Lemma sort_desc_head (l : list string) (m : string) (rest : list string) :
  sort_desc l = m :: rest -> lex_max m l.
Proof.
  intros E. split.
  - apply sort_desc_In. rewrite E. now left.
  - intros v Hv. eapply sort_desc_head_above; eassumption.
Qed.

Lemma sort_desc_nonempty (l : list string) :
  l <> [] -> exists m rest, sort_desc l = m :: rest.
Proof.
  destruct l as [|x l]; [congruence|]. intros _. simpl.
  destruct (sort_desc l) as [|h t]; simpl; [eauto|].
  destruct (String.leb h x); eauto.
Qed.

(** [sort_desc] is a sort: its output is in descending order and is a
    rearrangement of its input. *)
Lemma insert_desc_sorted (x : string) (l : list string) :
  Sorted (fun a b => String.leb b a = true) l ->
  Sorted (fun a b => String.leb b a = true) (insert_desc x l).
Proof.
  induction 1 as [|y l Hs IH Hhd]; simpl.
  - repeat constructor.
  - destruct (String.leb y x) eqn:E.
    + repeat constructor; assumption.
    + constructor; [exact IH|].
      destruct Hhd as [|z l Hz]; simpl.
      * constructor. destruct (String.leb_total y x); congruence.
      * destruct (String.leb z x); constructor;
          [destruct (String.leb_total y x); congruence | exact Hz].
Qed.

Lemma sort_desc_sorted (l : list string) :
  Sorted (fun a b => String.leb b a = true) (sort_desc l).
Proof.
  induction l as [|x l IH]; simpl; [constructor | now apply insert_desc_sorted].
Qed.

Lemma insert_desc_perm (x : string) (l : list string) :
  Permutation (x :: l) (insert_desc x l).
Proof.
  induction l as [|y l IH]; simpl; [reflexivity|].
  destruct (String.leb y x); [reflexivity|].
  rewrite perm_swap. now constructor.
Qed.

Lemma sort_desc_perm (l : list string) : Permutation l (sort_desc l).
Proof.
  induction l as [|x l IH]; simpl; [constructor|].
  rewrite <- insert_desc_perm. now constructor.
Qed.

(** A greatest element is unique. *)
Lemma lex_max_unique (m m' : string) (l : list string) :
  lex_max m l -> lex_max m' l -> m = m'.
Proof.
  intros [H1 H2] [H3 H4]. apply String.leb_antisym; auto.
Qed.

(** ** Loading a definition document *)

Lemma init_fields (n v p s : string) (m : value) (r : ResolutionResult) :
  ResolutionResult_init (VStr n) (VStr v) (VStr p) (VStr s) m = Return r ->
  name r = n /\ version r = v /\ path r = p /\ source r = s.
Proof.
  simpl. destruct m; try discriminate. intros [= <-]. now simpl.
Qed.

(** A result of [_create_result] carries the name and version it was asked
    for, the directory of the document, and the tag "local". *)
Lemma create_result_fields (fs : node) (n v : string) (p : Path) (r : ResolutionResult) :
  LocalResolver._create_result fs n v p = Return r ->
  name r = n /\ version r = v /\ path r = path_str (parent p) /\ source r = "local".
Proof.
  unfold LocalResolver._create_result, LocalResolver.load_result, try_except, obind.
  destruct (open_safe_load fs p) as [d|e]; [|discriminate].
  destruct (ResolutionResult_init _ _ _ _ _) as [r'|e] eqn:E; [|discriminate].
  intros [= <-]. now apply init_fields in E.
Qed.

(** Whatever goes wrong inside [_create_result] leaves it as a
    [ResolutionError] with the name and the path of the document. *)
Lemma create_result_raises (fs : node) (n v : string) (p : Path) (e : exn) :
  LocalResolver._create_result fs n v p = Raise e ->
  e = ResolutionError n (path_str p).
Proof.
  unfold LocalResolver._create_result, try_except.
  destruct (LocalResolver.load_result fs n v p); [discriminate|].
  now intros [= <-].
Qed.

Lemma create_result_loadable (fs : node) (n v : string) (p : Path) :
  loadable fs p ->
  exists r, LocalResolver._create_result fs n v p = Return r.
Proof.
  intros (doc & Hd & Hk).
  unfold LocalResolver._create_result, LocalResolver.load_result, try_except.
  rewrite Hd. simpl. destruct Hk as [Hf|[d ->]].
  - rewrite Hf. eauto.
  - destruct (truthy (VDict d)); eauto.
Qed.

(** With every other outcome of opening and loading, [_create_result] raises. *)
Lemma create_result_unloadable (fs : node) (n v : string) (p : Path) :
  ~ loadable fs p ->
  LocalResolver._create_result fs n v p = Raise (ResolutionError n (path_str p)).
Proof.
  intros H.
  destruct (LocalResolver._create_result fs n v p) as [r|e] eqn:E.
  - exfalso. apply H. revert E.
    unfold LocalResolver._create_result, LocalResolver.load_result, try_except, loadable.
    destruct (open_safe_load fs p) as [doc|e]; simpl; [|discriminate].
    intros E. exists doc. split; [reflexivity|].
    destruct (truthy doc) eqn:T; [|now left].
    right. destruct doc; simpl in E; try discriminate. eauto.
  - now rewrite (create_result_raises _ _ _ _ _ E).
Qed.

(** ** Version selection *)

(** When [iterdir] succeeds the directory exists. *)
Lemma version_dirs_exists (fs : node) (base_dir : Path) (vs : list string) :
  LocalResolver.version_dirs fs base_dir = Return vs -> exists_ fs base_dir = true.
Proof.
  unfold LocalResolver.version_dirs, iterdir, exists_.
  destruct (lookup fs base_dir) as [[c|es]|]; simpl; congruence.
Qed.

(** [_find_version] without a requested version, once the version
    directories are known and the greatest is [latest]. *)
Lemma find_version_unversioned (fs : node) (base_dir : Path) (n : string)
      (requested : option string) (vs : list string) (latest : string)
      (rest : list string) :
  if_str requested = None ->
  LocalResolver.version_dirs fs base_dir = Return vs ->
  sort_desc vs = latest :: rest ->
  LocalResolver._find_version fs base_dir n requested =
  let version_file := base_dir ++ [latest; "definition.yaml"] in
  if exists_ fs version_file then
    r <- LocalResolver._create_result fs n latest version_file ;; Return (Some r)
  else Return None.
Proof.
  intros Hreq Hvs Hs. unfold LocalResolver._find_version.
  rewrite (version_dirs_exists _ _ _ Hvs), Hreq, Hvs. simpl.
  destruct vs as [|v0 vs']; [discriminate|]. now rewrite Hs.
Qed.

(** C2, as the code has it: with no version requested and at least one
    version directory, [_find_version] settles on the lexically greatest
    directory name (the head of the descending sort); every result it returns
    carries that version, and it does return one when that directory holds a
    loadable definition document.  When the directory holds no definition
    document the answer is absent: no smaller version is tried.  With the
    documented versions 10.0.0 and 2.0.0 the local resolver returns 2.0.0. *)
Theorem find_version_picks_lexical_max :
  (forall (fs : node) (base_dir : Path) (n : string) (requested : option string)
          (vs : list string),
     if_str requested = None ->
     LocalResolver.version_dirs fs base_dir = Return vs ->
     vs <> [] ->
     exists latest : string,
       lex_max latest vs /\
       hd_error (sort_desc vs) = Some latest /\
       (forall r, LocalResolver._find_version fs base_dir n requested = Return (Some r) ->
                  version r = latest) /\
       (loadable fs (base_dir ++ [latest; "definition.yaml"]) ->
        exists r, LocalResolver._find_version fs base_dir n requested = Return (Some r) /\
                  version r = latest /\ name r = n) /\
       (exists_ fs (base_dir ++ [latest; "definition.yaml"]) = false ->
        LocalResolver._find_version fs base_dir n requested = Return None)) /\
  (exists r, LocalResolver.resolve fs_10_and_2 local_default "a" None = Return (Some r) /\
             version r = "2.0.0").
Proof.
  split.
  - intros fs base_dir n requested vs Hreq Hvs Hne.
    destruct (sort_desc_nonempty vs Hne) as (latest & rest & Hs).
    exists latest. split; [exact (sort_desc_head _ _ _ Hs)|].
    split; [now rewrite Hs|].
    rewrite (find_version_unversioned fs base_dir n requested vs latest rest Hreq Hvs Hs). cbv zeta.
    split; [|split].
    + destruct (exists_ fs _); [|discriminate].
      destruct (LocalResolver._create_result fs n latest _) as [r'|e] eqn:E;
        simpl; [|discriminate].
      intros r [= <-]. now apply create_result_fields in E.
    + intros Hl.
      assert (Hex : exists_ fs (base_dir ++ [latest; "definition.yaml"]) = true).
      { destruct Hl as (doc & Hd & _). unfold exists_. unfold open_safe_load in Hd.
        destruct (lookup fs _); [reflexivity | discriminate]. }
      rewrite Hex. destruct (create_result_loadable fs n latest _ Hl) as [r E].
      rewrite E. simpl. exists r. split; [reflexivity|].
      apply create_result_fields in E. tauto.
    + now intros ->.
  - eexists. split; reflexivity.
Qed.

Lemma find_version_picks_lexical_max_witness :
  exists latest : string,
    lex_max latest ["10.0.0"; "2.0.0"] /\
    exists r, LocalResolver._find_version fs_10_and_2 ["./.forge"; "agents"; "a"] "a" None
              = Return (Some r) /\ version r = latest.
Proof.
  destruct (proj1 find_version_picks_lexical_max fs_10_and_2
              ["./.forge"; "agents"; "a"] "a" None ["10.0.0"; "2.0.0"]
              eq_refl eq_refl ltac:(discriminate))
    as (latest & Hmax & _ & _ & Hload & _).
  exists latest. split; [exact Hmax|].
  destruct Hload as (r & Hr & Hv & _).
  - exists (VDict [("name", VStr "a"); ("version", VStr latest);
                   ("description", VStr "sample")]).
    assert (latest = "2.0.0") as ->.
    { apply (lex_max_unique _ _ _ Hmax). split; [simpl; auto|].
      intros v [<-|[<-|[]]]; reflexivity. }
    split; [reflexivity | right; eauto].
  - eauto.
Defined.

(** C2, as the claim words it, fails: agents/a has the version directories
    1.0.0 and 2.0.0, the greatest of them holds no definition document, and
    the resolver answers absent rather than a version. *)
Lemma latest_without_document_is_absent :
  LocalResolver.version_dirs fs_latest_empty ["./.forge"; "agents"; "a"]
    = Return ["1.0.0"; "2.0.0"] /\
  LocalResolver.resolve fs_latest_empty local_default "a" None = Return None /\
  ~ (exists r, LocalResolver.resolve fs_latest_empty local_default "a" None
               = Return (Some r) /\ version r = "2.0.0").
Proof.
  split; [reflexivity|]. split; [reflexivity|].
  intros (r & H & _). discriminate H.
Qed.

(** ** The kind buckets *)

(** One round of the loop over the kind buckets. *)
Lemma search_types_step (fs : node) (root : Path) (pn : string) (v : option string)
      (item_type : string) (rest : list string) :
  exists_ fs (root ++ [item_type; pn]) = true ->
  LocalResolver.search_types fs root pn v (item_type :: rest) =
  match LocalResolver._find_version fs (root ++ [item_type; pn]) pn v with
  | Return (Some r) => Return (Some r)
  | Return None => LocalResolver.search_types fs root pn v rest
  | Raise e => Raise e
  end.
Proof.
  intros H. simpl. rewrite H. simpl.
  destruct (LocalResolver._find_version fs _ pn v) as [[r|]|e]; reflexivity.
Qed.

Lemma is_dir_exists (fs : node) (p : Path) : is_dir fs p = true -> exists_ fs p = true.
Proof.
  unfold is_dir, exists_. destruct (lookup fs p) as [[c|es]|]; congruence.
Qed.

(** [_find_version] answers absent for a directory that does not exist. *)
Lemma find_version_missing (fs : node) (base_dir : Path) (n : string) (v : option string) :
  exists_ fs base_dir = false ->
  LocalResolver._find_version fs base_dir n v = Return None.
Proof. intros H. unfold LocalResolver._find_version. now rewrite H. Qed.

(** [resolve] is the agents bucket first, then the tools bucket. *)
Lemma resolve_buckets (fs : node) (self : LocalResolver.t) (root : Path)
      (token : string) (requested : option string) :
  LocalResolver.registry_path self = Some root ->
  exists_ fs root = true ->
  LocalResolver.resolve fs self token requested =
  let pn := fst (BaseResolver._parse_name_version token) in
  let v := py_or requested (snd (BaseResolver._parse_name_version token)) in
  match LocalResolver._find_version fs (root ++ ["agents"; pn]) pn v with
  | Return (Some r) => Return (Some r)
  | Return None => LocalResolver._find_version fs (root ++ ["tools"; pn]) pn v
  | Raise e => Raise e
  end.
Proof.
  intros Hroot Hex. unfold LocalResolver.resolve. rewrite Hroot, Hex. simpl negb.
  destruct (BaseResolver._parse_name_version token) as [pn pv]. cbv zeta. simpl fst. simpl snd.
  set (v := py_or requested pv).
  assert (Htools : LocalResolver.search_types fs root pn v ["tools"] =
                   LocalResolver._find_version fs (root ++ ["tools"; pn]) pn v).
  { destruct (exists_ fs (root ++ ["tools"; pn])) eqn:Et.
    - rewrite search_types_step by exact Et.
      destruct (LocalResolver._find_version fs _ pn v) as [[r|]|e]; reflexivity.
    - simpl. rewrite Et. simpl. now rewrite find_version_missing. }
  destruct (exists_ fs (root ++ ["agents"; pn])) eqn:Ea.
  - rewrite search_types_step by exact Ea. now rewrite Htools.
  - rewrite (find_version_missing _ _ _ _ Ea).
    change (LocalResolver.search_types fs root pn v ["agents"; "tools"])
      with (if negb (exists_ fs (root ++ ["agents"; pn]))
            then LocalResolver.search_types fs root pn v ["tools"]
            else (result <- LocalResolver._find_version fs (root ++ ["agents"; pn]) pn v ;;
                  match result with
                  | Some r => Return (Some r)
                  | None => LocalResolver.search_types fs root pn v ["tools"]
                  end)).
    rewrite Ea. simpl negb. cbv iota. exact Htools.
Qed.

(** C10: for a name that is a directory in both kind buckets of a registry
    root, [resolve] asks the agents bucket first: a result found there is the
    answer (and so is an error raised there), whatever the tools bucket holds;
    the tools bucket decides only when the agents bucket yields no result. *)
Theorem agents_bucket_shadows_tools
        (fs : node) (self : LocalResolver.t) (root : Path)
        (token : string) (requested : option string) :
  let pn := fst (BaseResolver._parse_name_version token) in
  let v := py_or requested (snd (BaseResolver._parse_name_version token)) in
  let in_agents := LocalResolver._find_version fs (root ++ ["agents"; pn]) pn v in
  let in_tools := LocalResolver._find_version fs (root ++ ["tools"; pn]) pn v in
  LocalResolver.registry_path self = Some root ->
  is_dir fs (root ++ ["agents"; pn]) = true ->
  is_dir fs (root ++ ["tools"; pn]) = true ->
  (forall r, in_agents = Return (Some r) ->
             LocalResolver.resolve fs self token requested = Return (Some r)) /\
  (forall e, in_agents = Raise e ->
             LocalResolver.resolve fs self token requested = Raise e) /\
  (in_agents = Return None ->
   LocalResolver.resolve fs self token requested = in_tools) /\
  (forall r, LocalResolver.resolve fs self token requested = Return (Some r) ->
             in_agents = Return (Some r) \/
             (in_agents = Return None /\ in_tools = Return (Some r))).
Proof.
  intros pn v in_agents in_tools Hroot Ha Ht.
  assert (Hex : exists_ fs root = true).
  { apply is_dir_exists in Ha. unfold exists_ in *.
    destruct (lookup fs root) eqn:E; [reflexivity|].
    exfalso. clear -Ha E. revert fs Ha E.
    induction root as [|s root IH]; intros fs Ha E; simpl in *; [discriminate|].
    destruct fs as [c|es]; [discriminate|].
    destruct (assoc s es); [|discriminate]. eapply IH; eassumption. }
  rewrite (resolve_buckets fs self root token requested Hroot Hex). cbv zeta.
  fold pn. fold v. fold in_agents. fold in_tools.
  repeat split.
  - now intros r ->.
  - now intros e ->.
  - now intros ->.
  - destruct in_agents as [[r'|]|e]; intros r H; [left; exact H | right; auto | discriminate].
Qed.

Lemma agents_bucket_shadows_tools_witness :
  exists r, LocalResolver.resolve fs_both_buckets local_default "x" None = Return (Some r) /\
            version r = "1.0.0" /\ path r = "./.forge/agents/x/1.0.0".
Proof.
  eexists. split.
  - apply (proj1 (agents_bucket_shadows_tools fs_both_buckets local_default ["./.forge"]
                    "x" None eq_refl eq_refl eq_refl)).
    reflexivity.
  - split; reflexivity.
Defined.

(** ** The source tag *)

Lemma find_version_source (fs : node) (base_dir : Path) (n : string)
      (v : option string) (r : ResolutionResult) :
  LocalResolver._find_version fs base_dir n v = Return (Some r) -> source r = "local".
Proof.
  unfold LocalResolver._find_version.
  destruct (exists_ fs base_dir); simpl; [|discriminate].
  assert (Hcr : forall ver p,
             (if exists_ fs p
              then r0 <- LocalResolver._create_result fs n ver p ;; Return (Some r0)
              else Return None) = Return (Some r) -> source r = "local").
  { intros ver p. destruct (exists_ fs p); [|discriminate].
    destruct (LocalResolver._create_result fs n ver p) as [r'|e] eqn:E; simpl; [|discriminate].
    intros [= <-]. now apply create_result_fields in E. }
  destruct (if_str v) as [ver|]; [apply Hcr|].
  destruct (LocalResolver.version_dirs fs base_dir) as [vs|e]; simpl; [|discriminate].
  destruct vs as [|v0 vs]; [discriminate|].
  destruct (sort_desc (v0 :: vs)) as [|latest rest]; [discriminate|]. apply Hcr.
Qed.

Lemma search_types_source (fs : node) (root : Path) (pn : string) (v : option string)
      (item_types : list string) (r : ResolutionResult) :
  LocalResolver.search_types fs root pn v item_types = Return (Some r) ->
  source r = "local".
Proof.
  induction item_types as [|ty rest IH]; simpl; [discriminate|].
  destruct (exists_ fs (root ++ [ty; pn])); simpl; [|exact IH].
  destruct (LocalResolver._find_version fs _ pn v) as [[r'|]|e] eqn:E; simpl;
    [|exact IH|discriminate].
  intros [= <-]. now apply find_version_source in E.
Qed.

(** Every result of the local resolver's [resolve] is tagged "local". *)
Lemma local_resolve_source (fs : node) (self : LocalResolver.t) (token : string)
      (requested : option string) (r : ResolutionResult) :
  LocalResolver.resolve fs self token requested = Return (Some r) -> source r = "local".
Proof.
  unfold LocalResolver.resolve.
  destruct (LocalResolver.registry_path self) as [root|]; [|discriminate].
  destruct (exists_ fs root); cbn [negb]; [|discriminate].
  destruct (BaseResolver._parse_name_version token) as [pn pv].
  apply search_types_source.
Qed.

(** Every result of the global resolver's [resolve] is tagged "global". *)
Lemma global_resolve_source (fs : node) (self : LocalResolver.t) (token : string)
      (requested : option string) (r : ResolutionResult) :
  GlobalResolver.resolve fs self token requested = Return (Some r) -> source r = "global".
Proof.
  unfold GlobalResolver.resolve.
  destruct (LocalResolver.resolve fs self token requested) as [[r'|]|e]; simpl;
    try discriminate.
  now intros [= <-].
Qed.

Lemma decode_source (data : value) (r : ResolutionResult) :
  RemoteResolver.decode data = Return r -> source r = "remote".
Proof.
  unfold RemoteResolver.decode, obind.
  destruct (getitem data "name") as [n|]; [|discriminate].
  destruct (getitem data "version") as [v|]; [|discriminate].
  destruct (dict_get data "path" _) as [p|]; [|discriminate].
  destruct (dict_get data "metadata" _) as [m|]; [|discriminate].
  destruct n, v, p, m; simpl; try discriminate. now intros [= <-].
Qed.

(** Every result of the remote resolver's [resolve] is tagged "remote". *)
Lemma remote_resolve_source (get : http) (self : RemoteResolver.t) (token : string)
      (requested : option string) (r : ResolutionResult) :
  RemoteResolver.resolve get self token requested = Return (Some r) -> source r = "remote".
Proof.
  unfold RemoteResolver.resolve, try_except.
  destruct (BaseResolver._parse_name_version token) as [pn pv].
  match goal with |- context [match ?b with Return _ => _ | Raise _ => _ end] =>
    destruct b as [o|e] eqn:E end.
  - intros [= ->]. revert E. unfold obind.
    destruct (get _ _) as [resp|]; [|discriminate].
    destruct (status_code resp =? 404)%Z; [discriminate|].
    destruct (negb (status_code resp =? 200)%Z); [discriminate|].
    destruct (response_json resp) as [data|]; [|discriminate].
    destruct (RemoteResolver.decode data) as [r'|] eqn:D; [|discriminate].
    intros [= <-]. now apply decode_source in D.
  - destruct (is_HTTPError e); discriminate.
Qed.

Section ListAll.

Variable fs : node.
Let tagged_local (rs : list ResolutionResult) : Prop :=
  Forall (fun r => source r = "local") rs.

Lemma list_versions_source (n : string) (ds : list Path)
      (acc rs : list ResolutionResult) :
  tagged_local acc ->
  LocalResolver.list_versions fs n ds acc = Return rs -> tagged_local rs.
Proof.
  revert acc. induction ds as [|d ds IH]; simpl; intros acc Hacc.
  - now intros [= <-].
  - destruct (is_dir fs d); simpl; [|now apply IH].
    destruct (exists_ fs (d ++ ["definition.yaml"])); [|now apply IH].
    destruct (LocalResolver._create_result fs n (basename d) _) as [r|e] eqn:E;
      simpl; [|discriminate].
    apply IH. apply Forall_app. split; [exact Hacc|].
    constructor; [|constructor]. now apply create_result_fields in E.
Qed.

Lemma list_names_source (ds : list Path) (acc rs : list ResolutionResult) :
  tagged_local acc ->
  LocalResolver.list_names fs ds acc = Return rs -> tagged_local rs.
Proof.
  revert acc. induction ds as [|d ds IH]; simpl; intros acc Hacc.
  - now intros [= <-].
  - destruct (is_dir fs d); simpl; [|now apply IH].
    destruct (iterdir fs d) as [vs|e]; simpl; [|discriminate].
    destruct (LocalResolver.list_versions fs (basename d) vs acc) as [acc'|e] eqn:E;
      simpl; [|discriminate].
    apply IH. eapply list_versions_source; eassumption.
Qed.

Lemma list_types_source (root : Path) (tys : list string)
      (acc rs : list ResolutionResult) :
  tagged_local acc ->
  LocalResolver.list_types fs root tys acc = Return rs -> tagged_local rs.
Proof.
  revert acc. induction tys as [|ty tys IH]; simpl; intros acc Hacc.
  - now intros [= <-].
  - destruct (exists_ fs (root ++ [ty])); simpl; [|now apply IH].
    destruct (iterdir fs (root ++ [ty])) as [ns|e]; simpl; [|discriminate].
    destruct (LocalResolver.list_names fs ns acc) as [acc'|e] eqn:E;
      simpl; [|discriminate].
    apply IH. eapply list_names_source; eassumption.
Qed.

(** Every result of [LocalResolver.list_all] is tagged "local"; the global
    resolver inherits the method, so the same holds for its listing. *)
Lemma list_all_source (self : LocalResolver.t) (rs : list ResolutionResult) :
  LocalResolver.list_all fs self = Return rs -> tagged_local rs.
Proof.
  unfold LocalResolver.list_all.
  destruct (LocalResolver.registry_path self) as [root|].
  - destruct (exists_ fs root); cbn [negb].
    + apply list_types_source. constructor.
    + intros [= <-]. constructor.
  - intros [= <-]. constructor.
Qed.

Lemma global_list_all_source (self : LocalResolver.t) (rs : list ResolutionResult) :
  GlobalResolver.list_all fs self = Return rs ->
  Forall (fun r => source r = "local") rs.
Proof. apply list_all_source. Qed.

End ListAll.

(** C3 at the user-level registry holding agents/a/1.0.0: the global
    resolver's [resolve] returns the record tagged "global", its [list_all]
    returns the same record tagged "local". *)
Theorem global_list_all_tagged_local :
  GlobalResolver.resolve fs_global_only global_default "a" None =
    Return (Some (mkResult "a" "1.0.0" "/home/u/.forge/agents/a/1.0.0" "global"
                    [("name", VStr "a"); ("version", VStr "1.0.0");
                     ("description", VStr "sample")])) /\
  GlobalResolver.list_all fs_global_only global_default =
    Return [mkResult "a" "1.0.0" "/home/u/.forge/agents/a/1.0.0" "local"
              [("name", VStr "a"); ("version", VStr "1.0.0");
               ("description", VStr "sample")]].
Proof. split; reflexivity. Qed.

(** The registry's listing filtered to "global" hands out that record
    tagged "local". *)
Example agent_list_global_tagged_local :
  let w := mkWorld fs_global_only "/home/u" remote_down in
  exists r, fst (AgentRegistry.agent_list w (agents_no_remote w) (Some "global")) = Return [r] /\
            source r = "local".
Proof. eexists. split; reflexivity. Qed.

(** ** Decoding the remote answer *)

(** A 200 answer whose mapping lacks "name" leaves [resolve] as a [KeyError];
    so does one with "name" and without "version". *)
Lemma remote_missing_field (get : http) (self : RemoteResolver.t) (token : string)
      (requested : option string) (d : list (string * value)) :
  (forall endpoint params, get endpoint params = Return (mkResponse 200 (Some (VDict d)))) ->
  (assoc "name" d = None ->
   RemoteResolver.resolve get self token requested = Raise (KeyError "name")) /\
  (assoc "name" d <> None -> assoc "version" d = None ->
   RemoteResolver.resolve get self token requested = Raise (KeyError "version")).
Proof.
  intros Hget. unfold RemoteResolver.resolve, try_except.
  destruct (BaseResolver._parse_name_version token) as [pn pv].
  rewrite Hget. simpl. unfold RemoteResolver.decode. simpl. split.
  - now intros ->.
  - intros Hn Hv. destruct (assoc "name" d); [|congruence]. simpl. now rewrite Hv.
Qed.

(** C7 at a 200 answer with the body {"version": "1.0.0"}, and at one with
    the body {"name": "a"}: [RemoteResolver.resolve] ends in a [KeyError],
    which is neither a [NetworkError] nor a [ResolutionError]. *)
Theorem remote_missing_field_escapes_as_KeyError :
  RemoteResolver.resolve (remote_answers (VDict [("version", VStr "1.0.0")]))
                         remote_default "a" None = Raise (KeyError "name") /\
  RemoteResolver.resolve (remote_answers (VDict [("name", VStr "a")]))
                         remote_default "a" None = Raise (KeyError "version").
Proof. split; reflexivity. Qed.

(** ** The registry's [resolve] *)

Section Orchestrator.

Variables (w : world) (self : Registry.t) (token : string)
          (requested : option string) (prefer_local : bool).

Let k := Registry.artifact self.
Let in_local := LocalResolver.resolve (fs w) (Registry.local_resolver self) token requested.
Let in_global := GlobalResolver.resolve (fs w) (Registry.global_resolver self) token requested.
Let in_remote := RemoteResolver.resolve (remote w) (Registry.remote_resolver self) token requested.
Let missing := Registry.not_found k token requested ["local"; "global"; "remote"].
Let run := Registry.resolve w self token requested prefer_local.

(** The whole of [resolve], by the answers of the three resolvers. *)
Lemma resolve_cases :
  run =
  let t0 := [Log DEBUG (Resolving k token requested); CallResolve Local token requested] in
  match in_local with
  | Raise e => (Raise e, t0)
  | Return (Some r) => (Return r, t0 ++ [Log INFO (ResolvedFrom k token Local)])
  | Return None =>
    let t1 := t0 ++ [CallResolve Global token requested] in
    match in_global with
    | Raise e => (Raise e, t1)
    | Return (Some r) => (Return r, t1 ++ [Log INFO (ResolvedFrom k token Global)])
    | Return None =>
      if Registry.remote_configured self then
        let t2 := t1 ++ [CallResolve Remote token requested] in
        match in_remote with
        | Return (Some r) => (Return r, t2 ++ [Log INFO (ResolvedFrom k token Remote)])
        | Return None => (Raise missing, t2)
        | Raise e => (Raise missing, t2 ++ [Log WARNING (FailedToResolveFromRemote e)])
        end
      else (Raise missing, t1)
    end
  end.
Proof.
  unfold run, Registry.resolve, Registry.try_remote.
  fold k in_local in_global in_remote missing.
  destruct in_local as [[r|]|e]; [reflexivity| |reflexivity].
  destruct in_global as [[r|]|e]; [reflexivity| |reflexivity].
  destruct (Registry.remote_configured self); [|reflexivity].
  destruct in_remote as [[r|]|e]; reflexivity.
Qed.

(** The tiers are asked in the order local, global, remote, each at most
    once, and the remote one only when a URL is configured. *)
Lemma consulted_in_order :
  (consulted (snd run) = [Local] \/
   consulted (snd run) = [Local; Global] \/
   consulted (snd run) = [Local; Global; Remote]) /\
  (In Remote (consulted (snd run)) -> Registry.remote_configured self = true).
Proof.
  rewrite resolve_cases. cbv zeta.
  destruct in_local as [[r|]|e]; simpl; try (split; [auto | intros [H|[]]; discriminate]).
  destruct in_global as [[r|]|e]; simpl;
    try (split; [auto | intros [H|[H|[]]]; discriminate]).
  destruct (Registry.remote_configured self); simpl;
    [| split; [auto | intros [H|[H|[]]]; discriminate]].
  destruct in_remote as [[r|]|e]; simpl; auto.
Qed.

(** An error of [resolve] is an error of the local tier, an error of the
    global tier, or the not-found error: what the remote tier raises never
    reaches the caller. *)
Lemma resolve_raises (e : exn) :
  fst run = Raise e ->
  in_local = Raise e \/
  (in_local = Return None /\ in_global = Raise e) \/
  (in_local = Return None /\ in_global = Return None /\ e = missing).
Proof.
  rewrite resolve_cases. cbv zeta.
  destruct in_local as [[r|]|e1]; simpl; [discriminate| |intros [= ->]; auto].
  destruct in_global as [[r|]|e2]; simpl; [discriminate| |intros [= ->]; auto].
  destruct (Registry.remote_configured self); simpl.
  - destruct in_remote as [[r|]|e3]; simpl; [discriminate| |]; intros [= <-]; auto.
  - intros [= <-]. auto.
Qed.

End Orchestrator.

(** The remote tier takes part exactly when the configuration carries a
    non-empty remote URL. *)
Lemma remote_configured_url (self : Registry.t) :
  Registry.remote_configured self = true <->
  exists url, remote_registry_url (Registry.config self) = Some url /\ url <> "".
Proof.
  unfold Registry.remote_configured, if_str, str_truthy.
  destruct (remote_registry_url (Registry.config self)) as [url|].
  - destruct (String.eqb_spec url "") as [->|Hne]; simpl.
    + split; [discriminate|]. intros [u [[= <-] Hu]]. now elim Hu.
    + split; [|reflexivity]. intros _. now exists url.
  - split; [discriminate|]. intros [u [H _]]. discriminate H.
Qed.

Lemma remote_not_configured (self : Registry.t) :
  remote_registry_url (Registry.config self) = None \/
  remote_registry_url (Registry.config self) = Some "" ->
  Registry.remote_configured self = false.
Proof.
  unfold Registry.remote_configured. now intros [-> | ->].
Qed.

(** C1: [resolve] asks local, then global, then remote (remote only when
    the configuration has a non-empty remote URL) and returns the first result
    unchanged: the local result if there is one; else the global one; else,
    with a URL configured, the remote one; and when no tier asked yields a
    result (the remote one answering absent or failing) it raises
    [AgentNotFoundError] in an agent registry and [ToolNotFoundError] in a
    tool registry, for the token and the version asked. *)
Theorem resolve_first_tier_wins
        (w : world) (self : Registry.t) (token : string)
        (requested : option string) (prefer_local : bool) :
  let in_local := LocalResolver.resolve (fs w) (Registry.local_resolver self) token requested in
  let in_global := GlobalResolver.resolve (fs w) (Registry.global_resolver self) token requested in
  let in_remote := RemoteResolver.resolve (remote w) (Registry.remote_resolver self) token requested in
  let configured := remote_registry_url (Registry.config self) in
  let run := Registry.resolve w self token requested prefer_local in
  let not_found_raised :=
    match Registry.artifact self with
    | Agent => fst run = Raise (AgentNotFoundError token requested ["local"; "global"; "remote"])
    | Tool => fst run = Raise (ToolNotFoundError token requested ["local"; "global"; "remote"])
    end in
  (forall r, in_local = Return (Some r) ->
     fst run = Return r /\ consulted (snd run) = [Local]) /\
  (forall r, in_local = Return None -> in_global = Return (Some r) ->
     fst run = Return r /\ consulted (snd run) = [Local; Global]) /\
  (forall r url, in_local = Return None -> in_global = Return None ->
     configured = Some url -> url <> "" -> in_remote = Return (Some r) ->
     fst run = Return r /\ consulted (snd run) = [Local; Global; Remote]) /\
  (forall url, in_local = Return None -> in_global = Return None ->
     configured = Some url -> url <> "" ->
     (forall r, in_remote <> Return (Some r)) ->
     not_found_raised /\ consulted (snd run) = [Local; Global; Remote]) /\
  (in_local = Return None -> in_global = Return None ->
     configured = None \/ configured = Some "" ->
     not_found_raised /\ consulted (snd run) = [Local; Global]) /\
  (In Remote (consulted (snd run)) -> exists url, configured = Some url /\ url <> "").
Proof.
  intros in_local in_global in_remote configured run not_found_raised.
  assert (Hon : forall url, configured = Some url -> url <> "" ->
                            Registry.remote_configured self = true).
  { intros url H1 H2. apply remote_configured_url. now exists url. }
  split; [|split; [|split; [|split; [|split]]]].
  6: { intros H. apply remote_configured_url.
       exact (proj2 (consulted_in_order w self token requested prefer_local) H). }
  all: unfold not_found_raised, run; rewrite resolve_cases; cbv zeta;
       fold in_local; fold in_global; fold in_remote.
  - now intros r ->.
  - now intros r -> ->.
  - intros r url -> -> H1 H2 ->. now rewrite (Hon url H1 H2).
  - intros url -> -> H1 H2 Hr. rewrite (Hon url H1 H2).
    unfold Registry.not_found.
    destruct in_remote as [[r|]|e]; [now elim (Hr r)| |];
      destruct (Registry.artifact self); simpl; auto.
  - intros -> -> H. rewrite (remote_not_configured self H).
    unfold Registry.not_found. destruct (Registry.artifact self); simpl; auto.
Qed.

(** At a user-level record the global result is returned; with no registry
    directory and a remote URL configured the remote one is; with no registry
    directory and no remote URL the agent registry raises
    [AgentNotFoundError]. *)
Lemma resolve_first_tier_wins_witness :
  (exists r,
     GlobalResolver.resolve fs_global_only global_default "a" None = Return (Some r) /\
     fst (AgentRegistry.agent_resolve
            (mkWorld fs_global_only "/home/u" remote_down)
            (agents_with_remote (mkWorld fs_global_only "/home/u" remote_down))
            "a" None true) = Return r /\
     source r = "global") /\
  (fst (AgentRegistry.agent_resolve world_remote_only (agents_with_remote world_remote_only)
          "a" None true) =
     Return (mkResult "a" "1.0.0" "" "remote" []) /\
   consulted (snd (AgentRegistry.agent_resolve world_remote_only
                     (agents_with_remote world_remote_only) "a" None true)) =
     [Local; Global; Remote]) /\
  fst (AgentRegistry.agent_resolve world_nothing (agents_no_remote world_nothing)
         "a" (Some "1.0.0") true) =
    Raise (AgentNotFoundError "a" (Some "1.0.0") ["local"; "global"; "remote"]).
Proof.
  split; [|split].
  - eexists. split; [reflexivity|]. split.
    + apply (proj1 (proj2 (resolve_first_tier_wins
                             (mkWorld fs_global_only "/home/u" remote_down)
                             (agents_with_remote (mkWorld fs_global_only "/home/u" remote_down))
                             "a" None true)) _ eq_refl eq_refl).
    + reflexivity.
  - apply (proj1 (proj2 (proj2 (resolve_first_tier_wins
                                  world_remote_only (agents_with_remote world_remote_only)
                                  "a" None true)))
                 _ "https://registry.example" eq_refl eq_refl eq_refl).
    + discriminate.
    + reflexivity.
  - apply (proj1 (proj2 (proj2 (proj2 (proj2 (resolve_first_tier_wins
                                  world_nothing (agents_no_remote world_nothing)
                                  "a" (Some "1.0.0") true)))))
                 eq_refl eq_refl (or_introl eq_refl)).
Defined.

(** ** A record that is present but cannot be read *)

Lemma exists_prefix (fs : node) (p q : Path) :
  exists_ fs (p ++ q) = true -> exists_ fs p = true.
Proof.
  unfold exists_. revert fs. induction p as [|s p IH]; intros fs; simpl; [reflexivity|].
  destruct fs as [c|es]; [discriminate|].
  destruct (assoc s es); [apply IH | discriminate].
Qed.

Lemma find_version_corrupt (fs : node) (base_dir : Path) (n : string)
      (requested : option string) (ver : string) :
  selects fs base_dir requested ver ->
  exists_ fs (base_dir ++ [ver; "definition.yaml"]) = true ->
  ~ loadable fs (base_dir ++ [ver; "definition.yaml"]) ->
  LocalResolver._find_version fs base_dir n requested =
  Raise (ResolutionError n (path_str (base_dir ++ [ver; "definition.yaml"]))).
Proof.
  intros Hsel Hex Hbad.
  pose proof (create_result_unloadable fs n ver _ Hbad) as Hcr.
  destruct Hsel as [Hreq|(Hreq & vs & Hvs & Hhd)].
  - unfold LocalResolver._find_version.
    rewrite (exists_prefix _ _ _ Hex), Hreq. simpl. now rewrite Hex, Hcr.
  - destruct (sort_desc vs) as [|latest rest] eqn:Hs; [discriminate|].
    injection Hhd as ->.
    rewrite (find_version_unversioned fs base_dir n requested vs ver rest Hreq Hvs Hs).
    cbv zeta. now rewrite Hex, Hcr.
Qed.

Lemma local_resolve_corrupt (fs : node) (self : LocalResolver.t) (root : Path)
      (token : string) (requested : option string) (bucket : string) (document : Path) :
  LocalResolver.registry_path self = Some root ->
  meets_corrupt fs root token requested bucket document ->
  LocalResolver.resolve fs self token requested =
  Raise (ResolutionError (fst (BaseResolver._parse_name_version token)) (path_str document)).
Proof.
  intros Hroot (Hex & Hb & ver & Hsel & -> & Hdoc & Hbad).
  rewrite (resolve_buckets fs self root token requested Hroot Hex). cbv zeta.
  set (pn := fst (BaseResolver._parse_name_version token)) in *.
  set (v := py_or requested (snd (BaseResolver._parse_name_version token))) in *.
  assert (Happ : forall b, root ++ [b; pn] ++ [ver; "definition.yaml"]
                           = (root ++ [b; pn]) ++ [ver; "definition.yaml"]).
  { intros b. now rewrite <- app_assoc. }
  rewrite Happ in *.
  pose proof (find_version_corrupt fs _ pn v ver Hsel Hdoc Hbad) as Hfv.
  destruct Hb as [->|[-> Hag]].
  - now rewrite Hfv.
  - now rewrite Hag, Hfv.
Qed.

Lemma global_resolve_raises (fs : node) (self : LocalResolver.t) (token : string)
      (requested : option string) (e : exn) :
  LocalResolver.resolve fs self token requested = Raise e ->
  GlobalResolver.resolve fs self token requested = Raise e.
Proof. intros H. unfold GlobalResolver.resolve. now rewrite H. Qed.

(** C4: a definition document that exists and cannot be loaded makes
    [_create_result] raise [ResolutionError] with the artifact name and the
    document's path; when the project-level resolver meets such a document
    the registry's [resolve] raises that error having asked the local tier
    only, and when the user-level resolver meets it (the local tier having
    answered absent) [resolve] raises it having asked local and global only.
    The record never turns into an absent answer or a not-found error. *)
Theorem corrupt_record_propagates :
  (forall (fs : node) (n v : string) (document : Path),
     exists_ fs document = true -> ~ loadable fs document ->
     LocalResolver._create_result fs n v document =
     Raise (ResolutionError n (path_str document))) /\
  (forall (w : world) (self : Registry.t) (token : string) (requested : option string)
          (prefer_local : bool) (root : Path) (bucket : string) (document : Path),
     LocalResolver.registry_path (Registry.local_resolver self) = Some root ->
     meets_corrupt (fs w) root token requested bucket document ->
     let run := Registry.resolve w self token requested prefer_local in
     fst run = Raise (ResolutionError (fst (BaseResolver._parse_name_version token))
                                      (path_str document)) /\
     consulted (snd run) = [Local]) /\
  (forall (w : world) (self : Registry.t) (token : string) (requested : option string)
          (prefer_local : bool) (root : Path) (bucket : string) (document : Path),
     LocalResolver.resolve (fs w) (Registry.local_resolver self) token requested
       = Return None ->
     LocalResolver.registry_path (Registry.global_resolver self) = Some root ->
     meets_corrupt (fs w) root token requested bucket document ->
     let run := Registry.resolve w self token requested prefer_local in
     fst run = Raise (ResolutionError (fst (BaseResolver._parse_name_version token))
                                      (path_str document)) /\
     consulted (snd run) = [Local; Global]).
Proof.
  split; [|split].
  - intros fs n v document _ Hbad. now apply create_result_unloadable.
  - intros w self token requested pl root bucket document Hroot Hmeet run.
    unfold run. rewrite resolve_cases. cbv zeta.
    rewrite (local_resolve_corrupt _ _ _ _ _ _ _ Hroot Hmeet). now simpl.
  - intros w self token requested pl root bucket document Hloc Hroot Hmeet run.
    unfold run. rewrite resolve_cases. cbv zeta. rewrite Hloc.
    rewrite (global_resolve_raises _ _ _ _ _
               (local_resolve_corrupt _ _ _ _ _ _ _ Hroot Hmeet)).
    now simpl.
Qed.

Lemma fs_corrupt_unloadable :
  ~ loadable fs_corrupt ["./.forge"; "agents"; "a"; "1.0.0"; "definition.yaml"].
Proof. intros (doc & H & _). discriminate H. Qed.

Lemma corrupt_record_propagates_witness :
  let run := AgentRegistry.agent_resolve world_corrupt_local
               (agents_with_remote world_corrupt_local) "a" None true in
  fst run = Raise (ResolutionError "a" "./.forge/agents/a/1.0.0/definition.yaml") /\
  consulted (snd run) = [Local].
Proof.
  apply (proj1 (proj2 corrupt_record_propagates) world_corrupt_local
           (agents_with_remote world_corrupt_local) "a" None true
           ["./.forge"] "agents"
           ["./.forge"; "agents"; "a"; "1.0.0"; "definition.yaml"] eq_refl).
  split; [reflexivity|]. split; [now left|].
  exists "1.0.0". split.
  - right. split; [reflexivity|]. exists ["1.0.0"]. split; reflexivity.
  - split; [reflexivity|]. split; [reflexivity | exact fs_corrupt_unloadable].
Defined.

(** ** The not-found error *)

Lemma is_not_found_not_found (k : kind) (n : string) (v : option string)
      (searched : list string) :
  Registry.is_not_found k (Registry.not_found k n v searched) = true.
Proof. now destruct k. Qed.

(** C5, as the code has it: when the local and the global tier answer
    absent and the remote tier yields no result (not configured, absent, or
    failing), [resolve] raises the not-found error of the registry's kind
    with the name token and the version argument as passed, and with the fixed
    list local, global, remote, whether or not the remote tier was asked. *)
Theorem not_found_carries_fixed_tier_list
        (w : world) (self : Registry.t) (token : string)
        (requested : option string) (prefer_local : bool) :
  LocalResolver.resolve (fs w) (Registry.local_resolver self) token requested
    = Return None ->
  GlobalResolver.resolve (fs w) (Registry.global_resolver self) token requested
    = Return None ->
  (forall r, Registry.remote_configured self = true ->
             RemoteResolver.resolve (remote w) (Registry.remote_resolver self) token requested
               <> Return (Some r)) ->
  fst (Registry.resolve w self token requested prefer_local) =
  Raise (Registry.not_found (Registry.artifact self) token requested
                            ["local"; "global"; "remote"]).
Proof.
  intros Hl Hg Hr. rewrite resolve_cases. cbv zeta. rewrite Hl, Hg.
  destruct (Registry.remote_configured self); [|reflexivity].
  destruct (RemoteResolver.resolve _ _ _ _) as [[r|]|e]; try reflexivity.
  now elim (Hr r).
Qed.

Lemma not_found_carries_fixed_tier_list_witness :
  fst (ToolRegistry.tool_resolve world_nothing (ToolRegistry.__init__ world_nothing None)
         "x@1.0.0" None true) =
  Raise (ToolNotFoundError "x@1.0.0" None ["local"; "global"; "remote"]).
Proof.
  apply (not_found_carries_fixed_tier_list world_nothing
           (ToolRegistry.__init__ world_nothing None) "x@1.0.0" None true
           eq_refl eq_refl).
  intros r H. discriminate H.
Defined.

(** C5, as the claim words it, fails: with no remote URL configured the
    remote tier is not asked, and the error still lists it as searched. *)
Lemma searched_list_names_unasked_remote :
  let run := AgentRegistry.agent_resolve world_nothing (agents_no_remote world_nothing)
               "x" None true in
  fst run = Raise (AgentNotFoundError "x" None ["local"; "global"; "remote"]) /\
  consulted (snd run) = [Local; Global] /\
  map tier_name (consulted (snd run)) <> ["local"; "global"; "remote"].
Proof. repeat split. discriminate. Qed.

(** ** Failures of the remote tier *)

(** C6: whatever the remote resolver raises, [resolve] does not raise it:
    a local match is returned without the remote tier being asked, a global
    match likewise, and with nothing in the local and global tiers the outcome
    is [AgentNotFoundError] (in a tool registry [ToolNotFoundError]); when the
    configuration has a non-empty remote URL the remote tier was asked and its
    failure is logged as a warning.  An error of [resolve] is never other than
    an error of the local tier, an error of the global tier, or that not-found
    error. *)
Theorem remote_failure_is_swallowed
        (w : world) (self : Registry.t) (token : string)
        (requested : option string) (prefer_local : bool) (e : exn) :
  let in_local := LocalResolver.resolve (fs w) (Registry.local_resolver self) token requested in
  let in_global := GlobalResolver.resolve (fs w) (Registry.global_resolver self) token requested in
  let missing :=
    match Registry.artifact self with
    | Agent => AgentNotFoundError token requested ["local"; "global"; "remote"]
    | Tool => ToolNotFoundError token requested ["local"; "global"; "remote"]
    end in
  let run := Registry.resolve w self token requested prefer_local in
  RemoteResolver.resolve (remote w) (Registry.remote_resolver self) token requested
    = Raise e ->
  (forall r, in_local = Return (Some r) ->
     fst run = Return r /\ ~ In Remote (consulted (snd run))) /\
  (forall r, in_local = Return None -> in_global = Return (Some r) ->
     fst run = Return r /\ ~ In Remote (consulted (snd run))) /\
  (in_local = Return None -> in_global = Return None ->
     fst run = Raise missing /\
     (forall url, remote_registry_url (Registry.config self) = Some url -> url <> "" ->
        consulted (snd run) = [Local; Global; Remote] /\
        In (Log WARNING (FailedToResolveFromRemote e)) (snd run))) /\
  (forall e', fst run = Raise e' ->
     in_local = Raise e' \/ in_global = Raise e' \/ e' = missing).
Proof.
  intros in_local in_global missing run Hr.
  assert (Hm : missing = Registry.not_found (Registry.artifact self) token requested
                           ["local"; "global"; "remote"]).
  { unfold missing, Registry.not_found. now destruct (Registry.artifact self). }
  split; [|split; [|split]].
  4: { intros e' H. apply resolve_raises in H.
       fold in_local in H. fold in_global in H. rewrite <- Hm in H. tauto. }
  all: unfold run; rewrite resolve_cases; cbv zeta; fold in_local; fold in_global;
       rewrite ?Hr, <- ?Hm.
  - intros r ->. simpl. split; [reflexivity|]. intros [H|[]]. discriminate H.
  - intros r -> ->. simpl. split; [reflexivity|]. intros [H|[H|[]]]; discriminate H.
  - intros -> ->.
    destruct (Registry.remote_configured self) eqn:Hc; simpl.
    + split; [reflexivity|]. intros _ _ _. split; [reflexivity|]. auto 6.
    + split; [reflexivity|]. intros url H1 H2.
      assert (Registry.remote_configured self = true) as Ht
          by (apply remote_configured_url; now exists url).
      congruence.
Qed.

(** With the remote service down: a project-level match is returned; and
    with no registry directory and a remote URL configured, the agent registry
    asks the remote tier, logs the network error as a warning and raises
    [AgentNotFoundError]. *)
Lemma remote_failure_is_swallowed_witness :
  RemoteResolver.resolve remote_down
    (Registry.remote_resolver (agents_with_remote world_local_only)) "a" None
    = Raise (NetworkError None (Some "https://registry.example")) /\
  (exists r, fst (AgentRegistry.agent_resolve world_local_only
                    (agents_with_remote world_local_only) "a" None true) = Return r /\
             version r = "2.0.0" /\ source r = "local") /\
  (fst (AgentRegistry.agent_resolve world_nothing (agents_with_remote world_nothing)
          "a" None true) =
     Raise (AgentNotFoundError "a" None ["local"; "global"; "remote"]) /\
   consulted (snd (AgentRegistry.agent_resolve world_nothing
                     (agents_with_remote world_nothing) "a" None true)) =
     [Local; Global; Remote] /\
   In (Log WARNING (FailedToResolveFromRemote
                      (NetworkError None (Some "https://registry.example"))))
      (snd (AgentRegistry.agent_resolve world_nothing
              (agents_with_remote world_nothing) "a" None true))).
Proof.
  split; [reflexivity|]. split.
  - eexists. split.
    + apply (proj1 (remote_failure_is_swallowed world_local_only
                      (agents_with_remote world_local_only) "a" None true
                      (NetworkError None (Some "https://registry.example")) eq_refl)).
      reflexivity.
    + split; reflexivity.
  - pose proof (proj1 (proj2 (proj2 (remote_failure_is_swallowed world_nothing
                      (agents_with_remote world_nothing) "a" None true
                      (NetworkError None (Some "https://registry.example")) eq_refl)))
                  eq_refl eq_refl) as [Hraise Hlog].
    split; [exact Hraise|].
    apply (Hlog "https://registry.example" eq_refl). discriminate.
Defined.

(** A remote outage with nothing in the local and global tiers: not found,
    and the network error is in the log only. *)
Example remote_outage_ends_in_not_found :
  AgentRegistry.agent_resolve world_nothing (agents_with_remote world_nothing) "a" None true =
  (Raise (AgentNotFoundError "a" None ["local"; "global"; "remote"]),
   [Log DEBUG (Resolving Agent "a" None);
    CallResolve Local "a" None; CallResolve Global "a" None; CallResolve Remote "a" None;
    Log WARNING (FailedToResolveFromRemote
                   (NetworkError None (Some "https://registry.example")))]).
Proof. reflexivity. Qed.

(** ** [exists] *)

Lemma exists_cases (w : world) (self : Registry.t) (token : string)
      (requested : option string) :
  fst (Registry.exists_ w self token requested) =
  match fst (Registry.resolve w self token requested true) with
  | Return _ => Return true
  | Raise e => if Registry.is_not_found (Registry.artifact self) e then Return false
               else Raise e
  end.
Proof.
  unfold Registry.exists_, try_catch, bind.
  destruct (Registry.resolve w self token requested true) as [[r|e] tr]; simpl.
  - reflexivity.
  - destruct (Registry.is_not_found (Registry.artifact self) e); reflexivity.
Qed.



(** * Further properties of the resolvers *)


Lemma basename_snoc (p : Path) (s : string) : basename (p ++ [s]) = s.
Proof. apply last_last. Qed.

(** A document from which [_create_result] builds a result is loadable. *)
Lemma create_result_returns (fs : node) (n v : string) (p : Path) (r : ResolutionResult) :
  LocalResolver._create_result fs n v p = Return r -> loadable fs p.
Proof.
  unfold LocalResolver._create_result, LocalResolver.load_result, try_except, obind, loadable.
  destruct (open_safe_load fs p) as [doc|e]; [|discriminate].
  intros E. exists doc. split; [reflexivity|].
  destruct (truthy doc) eqn:T; [|now left].
  right. destruct doc; simpl in E; try discriminate. eauto.
Qed.


(** [_find_version] with a requested version looks at that version only. *)
Lemma find_version_requested (fs : node) (base_dir : Path) (n : string)
      (requested : option string) (ver : string) :
  if_str requested = Some ver ->
  LocalResolver._find_version fs base_dir n requested =
  if exists_ fs (base_dir ++ [ver; "definition.yaml"]) then
    r <- LocalResolver._create_result fs n ver (base_dir ++ [ver; "definition.yaml"]) ;;
    Return (Some r)
  else Return None.
Proof.
  intros Hreq. unfold LocalResolver._find_version. rewrite Hreq.
  destruct (exists_ fs base_dir) eqn:E; [reflexivity|]. simpl.
  destruct (exists_ fs (base_dir ++ _)) eqn:E'; [|reflexivity].
  apply exists_prefix in E'. congruence.
Qed.



(** ** name@version *)

Lemma parse_plain (n : string) :
  ~ In at_sign (list_ascii_of_string n) ->
  BaseResolver._parse_name_version n = (n, None).
Proof.
  intros H. apply str_contains_false in H.
  unfold BaseResolver._parse_name_version. now rewrite H.
Qed.

Lemma parse_with_version (n v : string) :
  ~ In at_sign (list_ascii_of_string n) ->
  BaseResolver._parse_name_version (n ++ String at_sign v) = (n, Some v).
Proof.
  intros H. apply str_contains_false in H.
  unfold BaseResolver._parse_name_version, str_split1.
  rewrite str_contains_append. simpl.
  now rewrite str_before_append, str_after_append.
Qed.

(** The file-system resolver reads the version through its truthiness only. *)
Lemma find_version_if_str (fs : node) (base_dir : Path) (n : string)
      (v1 v2 : option string) :
  if_str v1 = if_str v2 ->
  LocalResolver._find_version fs base_dir n v1 = LocalResolver._find_version fs base_dir n v2.
Proof. intros H. unfold LocalResolver._find_version. now rewrite H. Qed.

Lemma search_types_if_str (fs : node) (root : Path) (pn : string)
      (v1 v2 : option string) (tys : list string) :
  if_str v1 = if_str v2 ->
  LocalResolver.search_types fs root pn v1 tys = LocalResolver.search_types fs root pn v2 tys.
Proof.
  intros H. induction tys as [|ty tys IH]; simpl; [reflexivity|].
  now rewrite IH, (find_version_if_str fs _ pn v1 v2 H).
Qed.

Lemma local_resolve_same_request (fs : node) (self : LocalResolver.t)
      (t1 t2 : string) (r1 r2 : option string) :
  fst (BaseResolver._parse_name_version t1) = fst (BaseResolver._parse_name_version t2) ->
  if_str (py_or r1 (snd (BaseResolver._parse_name_version t1))) =
  if_str (py_or r2 (snd (BaseResolver._parse_name_version t2))) ->
  LocalResolver.resolve fs self t1 r1 = LocalResolver.resolve fs self t2 r2.
Proof.
  unfold LocalResolver.resolve.
  destruct (BaseResolver._parse_name_version t1) as [n1 v1].
  destruct (BaseResolver._parse_name_version t2) as [n2 v2]. cbn [fst snd].
  intros -> H.
  destruct (LocalResolver.registry_path self) as [root|]; [|reflexivity].
  destruct (exists_ fs root); [|reflexivity]. cbn [negb].
  now apply search_types_if_str.
Qed.

Lemma remote_resolve_same_request (get : http) (self : RemoteResolver.t)
      (t1 t2 : string) (r1 r2 : option string) :
  fst (BaseResolver._parse_name_version t1) = fst (BaseResolver._parse_name_version t2) ->
  if_str (py_or r1 (snd (BaseResolver._parse_name_version t1))) =
  if_str (py_or r2 (snd (BaseResolver._parse_name_version t2))) ->
  RemoteResolver.resolve get self t1 r1 = RemoteResolver.resolve get self t2 r2.
Proof.
  unfold RemoteResolver.resolve.
  destruct (BaseResolver._parse_name_version t1) as [n1 v1].
  destruct (BaseResolver._parse_name_version t2) as [n2 v2]. simpl.
  intros -> H. now rewrite H.
Qed.

(** X2: for a name without "@" and a non-empty version, the token
    name@version with no version argument is the same request as the name
    with the version as argument; a non-empty version argument wins over any
    version embedded in the token; and an empty embedded version (name@) is
    no version at all.  This holds for the local, the global and the remote
    resolver. *)
Theorem embedded_version_same_request
        (fs : node) (get : http) (self : LocalResolver.t) (rself : RemoteResolver.t)
        (n v v' : string) :
  ~ In at_sign (list_ascii_of_string n) ->
  v <> "" ->
  let at_v := (n ++ String at_sign v)%string in
  let at_v' := (n ++ String at_sign v')%string in
  let at_nothing := (n ++ String at_sign "")%string in
  (LocalResolver.resolve fs self at_v None = LocalResolver.resolve fs self n (Some v) /\
   LocalResolver.resolve fs self at_v' (Some v) = LocalResolver.resolve fs self n (Some v) /\
   LocalResolver.resolve fs self at_nothing None = LocalResolver.resolve fs self n None) /\
  (GlobalResolver.resolve fs self at_v None = GlobalResolver.resolve fs self n (Some v) /\
   GlobalResolver.resolve fs self at_v' (Some v) = GlobalResolver.resolve fs self n (Some v) /\
   GlobalResolver.resolve fs self at_nothing None = GlobalResolver.resolve fs self n None) /\
  (RemoteResolver.resolve get rself at_v None = RemoteResolver.resolve get rself n (Some v) /\
   RemoteResolver.resolve get rself at_v' (Some v) = RemoteResolver.resolve get rself n (Some v) /\
   RemoteResolver.resolve get rself at_nothing None = RemoteResolver.resolve get rself n None).
Proof.
  intros Hn Hv at_v at_v' at_nothing.
  assert (Ht : str_truthy v = true).
  { unfold str_truthy. destruct (String.eqb_spec v ""); [contradiction | reflexivity]. }
  assert (H1 : forall w (_ : unit),
             fst (BaseResolver._parse_name_version (n ++ String at_sign w)) =
             fst (BaseResolver._parse_name_version n)).
  { intros w _. now rewrite parse_with_version, parse_plain. }
  assert (H2 : if_str (py_or None (snd (BaseResolver._parse_name_version at_v))) =
               if_str (py_or (Some v) (snd (BaseResolver._parse_name_version n)))).
  { unfold at_v. rewrite parse_with_version, parse_plain by assumption.
    cbn [snd py_or]. now rewrite Ht. }
  assert (H3 : if_str (py_or (Some v) (snd (BaseResolver._parse_name_version at_v'))) =
               if_str (py_or (Some v) (snd (BaseResolver._parse_name_version n)))).
  { unfold at_v'. rewrite parse_with_version, parse_plain by assumption.
    cbn [snd py_or]. now rewrite Ht. }
  assert (H4 : if_str (py_or None (snd (BaseResolver._parse_name_version at_nothing))) =
               if_str (py_or None (snd (BaseResolver._parse_name_version n)))).
  { unfold at_nothing. now rewrite parse_with_version, parse_plain by assumption. }
  assert (L1 := local_resolve_same_request fs self at_v n None (Some v) (H1 v tt) H2).
  assert (L2 := local_resolve_same_request fs self at_v' n (Some v) (Some v) (H1 v' tt) H3).
  assert (L3 := local_resolve_same_request fs self at_nothing n None None (H1 "" tt) H4).
  split; [auto|]. split.
  - unfold GlobalResolver.resolve. now rewrite L1, L2, L3.
  - repeat split; apply remote_resolve_same_request; auto; apply (H1 _ tt).
Qed.

Lemma embedded_version_same_request_witness :
  LocalResolver.resolve fs_10_and_2 local_default "a@10.0.0" None =
  LocalResolver.resolve fs_10_and_2 local_default "a" (Some "10.0.0") /\
  LocalResolver.resolve fs_10_and_2 local_default "a@2.0.0" (Some "10.0.0") =
  LocalResolver.resolve fs_10_and_2 local_default "a" (Some "10.0.0").
Proof.
  assert (Hn : ~ In at_sign (list_ascii_of_string "a")).
  { simpl. intros [H|[]]. discriminate H. }
  assert (Hv : "10.0.0" <> "") by discriminate.
  destruct (embedded_version_same_request fs_10_and_2 remote_down local_default
              remote_default "a" "10.0.0" "2.0.0" Hn Hv) as ((H1 & H2 & _) & _).
  split; [exact H1 | exact H2].
Defined.

(** ** Where a result comes from *)




(** The result the registry returns is tagged with the last tier asked. *)
Lemma resolve_result_source (w : world) (self : Registry.t) (token : string)
      (requested : option string) (prefer_local : bool) (r : ResolutionResult) :
  fst (Registry.resolve w self token requested prefer_local) = Return r ->
  source r = tier_name (last (consulted (snd (Registry.resolve w self token requested
                                                prefer_local))) Local).
Proof.
  rewrite resolve_cases. cbv zeta.
  destruct (LocalResolver.resolve _ _ _ _) as [[r1|]|e1] eqn:E1; simpl.
  - intros [= <-]. now apply local_resolve_source in E1.
  - destruct (GlobalResolver.resolve _ _ _ _) as [[r2|]|e2] eqn:E2; simpl.
    + intros [= <-]. now apply global_resolve_source in E2.
    + destruct (Registry.remote_configured self); simpl; [|discriminate].
      destruct (RemoteResolver.resolve _ _ _ _) as [[r3|]|e3] eqn:E3; simpl;
        try discriminate.
      intros [= <-]. now apply remote_resolve_source in E3.
    + discriminate.
  - discriminate.
Qed.

(** X4: every result of a resolver's [resolve] carries that resolver's
    tier as its source, and the result the registry's [resolve] returns is
    tagged with the last tier the registry asked. *)
Theorem result_source_is_answering_tier :
  (forall (fs : node) (self : LocalResolver.t) (token : string)
          (requested : option string) (r : ResolutionResult),
     (LocalResolver.resolve fs self token requested = Return (Some r) ->
      source r = "local") /\
     (GlobalResolver.resolve fs self token requested = Return (Some r) ->
      source r = "global")) /\
  (forall (get : http) (self : RemoteResolver.t) (token : string)
          (requested : option string) (r : ResolutionResult),
     RemoteResolver.resolve get self token requested = Return (Some r) ->
     source r = "remote") /\
  (forall (w : world) (self : Registry.t) (token : string) (requested : option string)
          (prefer_local : bool) (r : ResolutionResult),
     let run := Registry.resolve w self token requested prefer_local in
     fst run = Return r ->
     source r = tier_name (last (consulted (snd run)) Local)).
Proof.
  split; [|split].
  - intros fs self token requested r. split.
    + apply local_resolve_source.
    + apply global_resolve_source.
  - apply remote_resolve_source.
  - intros w self token requested pl r run. apply resolve_result_source.
Qed.

Lemma result_source_is_answering_tier_witness :
  let w := mkWorld fs_global_only "/home/u" remote_down in
  exists r, fst (AgentRegistry.agent_resolve w (agents_with_remote w) "a" None true)
              = Return r /\
            source r = "global".
Proof.
  intros w. eexists. split; [reflexivity|].
  apply (proj2 (proj2 result_source_is_answering_tier) w (agents_with_remote w)
           "a" None true _ eq_refl).
Defined.

(** ** What the file-system resolver raises *)





(** ** Listing a registry *)

Lemma lookup_app (fs : node) (p q : Path) :
  lookup fs (p ++ q) = match lookup fs p with
                       | Some n => lookup n q
                       | None => None
                       end.
Proof.
  revert fs. induction p as [|s p IH]; intros fs; simpl; [reflexivity|].
  destruct fs as [c|es]; [reflexivity|].
  destruct (assoc s es); [apply IH | reflexivity].
Qed.

Lemma assoc_In {A : Type} (k : string) (l : list (string * A)) (a : A) :
  assoc k l = Some a -> In k (map fst l).
Proof.
  induction l as [|[k' a'] l IH]; simpl; [discriminate|].
  destruct (String.eqb_spec k k') as [->|_]; auto.
Qed.

(** A path with an existing child is listed by [iterdir] with that child. *)
Lemma iterdir_child (fs : node) (p q : Path) (s : string) :
  exists_ fs (p ++ s :: q) = true ->
  exists ds, iterdir fs p = Return ds /\ In (p ++ [s]) ds /\ is_dir fs p = true.
Proof.
  unfold exists_, iterdir, is_dir. rewrite lookup_app.
  destruct (lookup fs p) as [[c|es]|]; simpl; try discriminate.
  destruct (assoc s es) as [c|] eqn:E; [|discriminate]. intros _.
  eexists. split; [reflexivity|]. split; [|reflexivity].
  apply in_map_iff. apply assoc_In in E. apply in_map_iff in E.
  destruct E as ([k c'] & <- & Hin). exists (k, c'). auto.
Qed.

Lemma iterdir_children (fs : node) (p : Path) (ds : list Path) (d : Path) :
  iterdir fs p = Return ds -> In d ds -> exists s, d = p ++ [s].
Proof.
  unfold iterdir. destruct (lookup fs p) as [[c|es]|]; try discriminate.
  intros [= <-] Hin. apply in_map_iff in Hin. destruct Hin as (e & <- & _). eauto.
Qed.

Section Listing.

Variable fs : node.

Let doc (d : Path) : Path := d ++ ["definition.yaml"].

(** The inner loop adds exactly the results of the documents of the version
    directories it is given, and loads every one of them. *)
Lemma list_versions_spec (n : string) (ds : list Path) (acc rs : list ResolutionResult) :
  LocalResolver.list_versions fs n ds acc = Return rs ->
  exists new, rs = acc ++ new /\
    (forall r, In r new ->
       exists d, In d ds /\ exists_ fs (doc d) = true /\
                 LocalResolver._create_result fs n (basename d) (doc d) = Return r) /\
    (forall d, In d ds -> exists_ fs (doc d) = true ->
       exists r, In r new /\
                 LocalResolver._create_result fs n (basename d) (doc d) = Return r).
Proof.
  revert acc. induction ds as [|d ds IH]; simpl; intros acc.
  - intros [= <-]. exists []. rewrite app_nil_r. split; [reflexivity|].
    split; [intros r [] | intros d []].
  - assert (Hskip : exists_ fs (doc d) = false ->
              LocalResolver.list_versions fs n ds acc = Return rs ->
              exists new, rs = acc ++ new /\
                (forall r, In r new ->
                   exists d0, (d = d0 \/ In d0 ds) /\ exists_ fs (doc d0) = true /\
                     LocalResolver._create_result fs n (basename d0) (doc d0) = Return r) /\
                (forall d0, d = d0 \/ In d0 ds -> exists_ fs (doc d0) = true ->
                   exists r, In r new /\
                     LocalResolver._create_result fs n (basename d0) (doc d0) = Return r)).
    { intros Hno H. destruct (IH acc H) as (new & -> & Hs & Hc).
      exists new. split; [reflexivity|]. split.
      - intros r Hr. destruct (Hs r Hr) as (d0 & ? & ?). eauto.
      - intros d0 [<-|Hin] Hd; [congruence | auto]. }
    destruct (is_dir fs d) eqn:Hdir; simpl.
    + fold (doc d). destruct (exists_ fs (doc d)) eqn:Hdoc; [|now apply Hskip].
      destruct (LocalResolver._create_result fs n (basename d) (doc d)) as [r0|e] eqn:E;
        simpl; [|discriminate].
      intros H. destruct (IH _ H) as (new & -> & Hs & Hc).
      exists (r0 :: new). split; [now rewrite <- app_assoc|]. split.
      * intros r [<-|Hr]; [exists d; auto|].
        destruct (Hs r Hr) as (d0 & ? & ?). eauto.
      * intros d0 [<-|Hin] Hd; [exists r0; simpl; auto|].
        destruct (Hc d0 Hin Hd) as (r & ? & ?). exists r. simpl. auto.
    + apply Hskip. unfold exists_, doc. unfold is_dir in Hdir. rewrite lookup_app.
      destruct (lookup fs d) as [[c|es]|]; try reflexivity. discriminate.
Qed.

(** The middle loop, over the name directories of a kind bucket. *)
Lemma list_names_spec (ds : list Path) (acc rs : list ResolutionResult) :
  LocalResolver.list_names fs ds acc = Return rs ->
  exists new, rs = acc ++ new /\
    (forall r, In r new ->
       exists d v, In d ds /\ exists_ fs (d ++ [v; "definition.yaml"]) = true /\
         LocalResolver._create_result fs (basename d) v (d ++ [v; "definition.yaml"])
           = Return r) /\
    (forall d v, In d ds -> exists_ fs (d ++ [v; "definition.yaml"]) = true ->
       exists r, In r new /\
         LocalResolver._create_result fs (basename d) v (d ++ [v; "definition.yaml"])
           = Return r).
Proof.
  revert acc. induction ds as [|d ds IH]; simpl; intros acc.
  - intros [= <-]. exists []. rewrite app_nil_r. split; [reflexivity|].
    split; [intros r [] | intros d v []].
  - destruct (is_dir fs d) eqn:Hdir; simpl.
    + destruct (iterdir fs d) as [vs|e] eqn:Hvs; simpl; [|discriminate].
      destruct (LocalResolver.list_versions fs (basename d) vs acc) as [acc'|e] eqn:Hin;
        simpl; [|discriminate].
      intros H. destruct (list_versions_spec _ _ _ _ Hin) as (new1 & -> & Hs1 & Hc1).
      destruct (IH _ H) as (new2 & -> & Hs2 & Hc2).
      exists (new1 ++ new2). split; [now rewrite app_assoc|]. split.
      * intros r Hr. apply in_app_or in Hr. destruct Hr as [Hr|Hr].
        -- destruct (Hs1 r Hr) as (dv & Hdv & Hex & Hcr).
           destruct (iterdir_children _ _ _ _ Hvs Hdv) as (v & ->).
           unfold doc in Hex, Hcr. rewrite <- app_assoc in Hex, Hcr.
           rewrite basename_snoc in Hcr. exists d, v. auto.
        -- destruct (Hs2 r Hr) as (d0 & v & ? & ?). exists d0, v. auto.
      * intros d0 v [<-|Hd0] Hex.
        -- destruct (iterdir_child _ _ _ _ Hex) as (vs' & Hvs' & Hv & _).
           assert (vs' = vs) as -> by congruence.
           destruct (Hc1 (d ++ [v])) as (r & Hr & Hcr); [exact Hv | |].
           { unfold doc. now rewrite <- app_assoc. }
           unfold doc in Hcr. rewrite <- app_assoc, basename_snoc in Hcr.
           exists r. split; [apply in_or_app; auto | exact Hcr].
        -- destruct (Hc2 d0 v Hd0 Hex) as (r & ? & ?).
           exists r. split; [apply in_or_app; auto | assumption].
    + intros H. destruct (IH _ H) as (new & -> & Hs & Hc).
      exists new. split; [reflexivity|]. split.
      * intros r Hr. destruct (Hs r Hr) as (d0 & v & ? & ?). exists d0, v. auto.
      * intros d0 v [<-|Hd0] Hex; [|auto].
        destruct (iterdir_child _ _ _ _ Hex) as (_ & _ & _ & Hd). congruence.
Qed.

(** The outer loop, over the kind buckets. *)
Lemma list_types_spec (root : Path) (tys : list string) (acc rs : list ResolutionResult) :
  LocalResolver.list_types fs root tys acc = Return rs ->
  exists new, rs = acc ++ new /\
    (forall r, In r new ->
       exists ty n v, In ty tys /\
         exists_ fs (root ++ [ty; n; v; "definition.yaml"]) = true /\
         LocalResolver._create_result fs n v (root ++ [ty; n; v; "definition.yaml"])
           = Return r) /\
    (forall ty n v, In ty tys ->
       exists_ fs (root ++ [ty; n; v; "definition.yaml"]) = true ->
       exists r, In r new /\
         LocalResolver._create_result fs n v (root ++ [ty; n; v; "definition.yaml"])
           = Return r).
Proof.
  assert (Hpath : forall ty n v,
             root ++ [ty; n; v; "definition.yaml"]
             = ((root ++ [ty]) ++ [n]) ++ [v; "definition.yaml"]).
  { intros. now rewrite <- !app_assoc. }
  revert acc. induction tys as [|ty tys IH]; simpl; intros acc.
  - intros [= <-]. exists []. rewrite app_nil_r. split; [reflexivity|].
    split; [intros r [] | intros ty n v []].
  - destruct (exists_ fs (root ++ [ty])) eqn:Hty; simpl.
    + destruct (iterdir fs (root ++ [ty])) as [ns|e] eqn:Hns; simpl; [|discriminate].
      destruct (LocalResolver.list_names fs ns acc) as [acc'|e] eqn:Hin;
        simpl; [|discriminate].
      intros H. destruct (list_names_spec _ _ _ Hin) as (new1 & -> & Hs1 & Hc1).
      destruct (IH _ H) as (new2 & -> & Hs2 & Hc2).
      exists (new1 ++ new2). split; [now rewrite app_assoc|]. split.
      * intros r Hr. apply in_app_or in Hr. destruct Hr as [Hr|Hr].
        -- destruct (Hs1 r Hr) as (d & v & Hd & Hex & Hcr).
           destruct (iterdir_children _ _ _ _ Hns Hd) as (n & ->).
           rewrite basename_snoc in Hcr. rewrite <- Hpath in Hex, Hcr.
           exists ty, n, v. auto.
        -- destruct (Hs2 r Hr) as (ty0 & n & v & ? & ?). exists ty0, n, v. auto.
      * intros ty0 n v [<-|Hty0] Hex.
        -- assert (Hex' := Hex). rewrite Hpath, <- app_assoc in Hex'.
           destruct (iterdir_child _ _ _ _ Hex') as (ns' & Hns' & Hn & _).
           assert (ns' = ns) as -> by congruence.
           rewrite Hpath in Hex.
           destruct (Hc1 _ v Hn Hex) as (r & Hr & Hcr).
           rewrite basename_snoc, <- Hpath in Hcr.
           exists r. split; [apply in_or_app; auto | exact Hcr].
        -- destruct (Hc2 ty0 n v Hty0 Hex) as (r & ? & ?).
           exists r. split; [apply in_or_app; auto | assumption].
    + intros H. destruct (IH _ H) as (new & -> & Hs & Hc).
      exists new. split; [reflexivity|]. split.
      * intros r Hr. destruct (Hs r Hr) as (ty0 & n & v & ? & ?). exists ty0, n, v. auto.
      * intros ty0 n v [<-|Hty0] Hex; [|auto].
        change (root ++ [ty; n; v; "definition.yaml"])
          with (root ++ [ty] ++ [n; v; "definition.yaml"]) in Hex.
        rewrite app_assoc in Hex. apply exists_prefix in Hex. congruence.
Qed.

End Listing.

Lemma in_buckets (ty : string) :
  In ty ["agents"; "tools"] <-> ty = "agents" \/ ty = "tools".
Proof. simpl. intuition. Qed.

(** [list_all] that returns, by what it lists. *)
Lemma list_all_spec (fs : node) (self : LocalResolver.t) (root : Path)
      (rs : list ResolutionResult) :
  LocalResolver.registry_path self = Some root ->
  LocalResolver.list_all fs self = Return rs ->
  (forall r, In r rs -> documented fs root r) /\
  (forall bucket n v,
     bucket = "agents" \/ bucket = "tools" ->
     exists_ fs (root ++ [bucket; n; v; "definition.yaml"]) = true ->
     exists r, In r rs /\
               LocalResolver._create_result fs n v (root ++ [bucket; n; v; "definition.yaml"])
                 = Return r).
Proof.
  intros Hroot. unfold LocalResolver.list_all. rewrite Hroot.
  destruct (exists_ fs root) eqn:Hex; cbn [negb].
  - intros H. destruct (list_types_spec _ _ _ _ _ H) as (new & -> & Hs & Hc).
    simpl. split.
    + intros r Hr. destruct (Hs r Hr) as (ty & n & v & Hty & Hd & Hcr).
      exists ty, n, v. apply in_buckets in Hty. auto.
    + intros bucket n v Hb Hd. apply in_buckets in Hb. now apply Hc.
  - intros [= <-]. split; [intros r []|].
    intros bucket n v _ Hd. apply exists_prefix in Hd. congruence.
Qed.

(** X6: when [list_all] of the local (or global) resolver returns, it
    returns exactly the records of the registry: a result is listed if and
    only if [_create_result] builds it from a definition document at
    root/bucket/name/version/definition.yaml with bucket agents or tools; and
    every such document of the registry is loadable. *)
Theorem list_all_is_the_records
        (fs : node) (self : LocalResolver.t) (root : Path) (rs : list ResolutionResult) :
  LocalResolver.registry_path self = Some root ->
  LocalResolver.list_all fs self = Return rs ->
  (forall r, In r rs <-> documented fs root r) /\
  (forall bucket n v,
     bucket = "agents" \/ bucket = "tools" ->
     exists_ fs (root ++ [bucket; n; v; "definition.yaml"]) = true ->
     loadable fs (root ++ [bucket; n; v; "definition.yaml"])).
Proof.
  intros Hroot Hlist.
  destruct (list_all_spec fs self root rs Hroot Hlist) as [Hs Hc]. split.
  - intros r. split; [apply Hs|].
    intros (bucket & n & v & Hb & Hd & Hcr).
    destruct (Hc bucket n v Hb Hd) as (r' & Hin & Hcr'). congruence.
  - intros bucket n v Hb Hd. destruct (Hc bucket n v Hb Hd) as (r & _ & Hcr).
    eapply create_result_returns; eassumption.
Qed.

Lemma list_all_is_the_records_witness :
  exists rs, LocalResolver.list_all fs_both_buckets local_default = Return rs /\
             List.length rs = 2 /\
             loadable fs_both_buckets
               ["./.forge"; "tools"; "x"; "2.0.0"; "definition.yaml"].
Proof.
  eexists. split; [reflexivity|]. split; [reflexivity|].
  apply (proj2 (list_all_is_the_records fs_both_buckets local_default ["./.forge"] _
                  eq_refl eq_refl) "tools" "x" "2.0.0"); [now right | reflexivity].
Defined.




(** X8: whatever is listed can be resolved by name and version: for a
    listed result whose name holds no "@" and whose version is not empty,
    [resolve] with that name and version returns a result, itself listed,
    with the same name and version (the agents bucket's record when both
    buckets have one). *)
Theorem listed_is_resolvable
        (fs : node) (self : LocalResolver.t) (root : Path)
        (rs : list ResolutionResult) (r : ResolutionResult) :
  LocalResolver.registry_path self = Some root ->
  LocalResolver.list_all fs self = Return rs ->
  In r rs ->
  ~ In at_sign (list_ascii_of_string (name r)) ->
  version r <> "" ->
  exists r',
    LocalResolver.resolve fs self (name r) (Some (version r)) = Return (Some r') /\
    name r' = name r /\ version r' = version r /\ In r' rs.
Proof.
  intros Hroot Hlist Hin Hname Hver.
  destruct (list_all_spec fs self root rs Hroot Hlist) as [Hs Hc].
  destruct (Hs r Hin) as (bucket & n & v & Hb & Hd & Hcr).
  pose proof (create_result_fields _ _ _ _ _ Hcr) as (Hn & Hv & _).
  rewrite Hn in Hname |- *. rewrite Hv in Hver |- *.
  assert (Hex : exists_ fs root = true) by (eapply exists_prefix; exact Hd).
  rewrite (resolve_buckets fs self root n (Some v) Hroot Hex). cbv zeta.
  rewrite (parse_plain n Hname). cbn [fst snd py_or].
  assert (Ht : str_truthy v = true).
  { unfold str_truthy. destruct (String.eqb_spec v ""); [contradiction | reflexivity]. }
  rewrite Ht.
  assert (Hreq : if_str (Some v) = Some v) by (simpl; now rewrite Ht).
  rewrite !(find_version_requested fs _ n (Some v) v Hreq).
  assert (Hp : forall b, (root ++ [b; n]) ++ [v; "definition.yaml"]
                         = root ++ [b; n; v; "definition.yaml"]).
  { intros b. now rewrite <- app_assoc. }
  rewrite !Hp.
  destruct (exists_ fs (root ++ ["agents"; n; v; "definition.yaml"])) eqn:Ha.
  - destruct (Hc "agents" n v (or_introl eq_refl) Ha) as (r' & Hin' & Hcr').
    rewrite Hcr'. simpl. exists r'. split; [reflexivity|].
    apply create_result_fields in Hcr'. tauto.
  - destruct Hb as [-> | ->]; [congruence|].
    rewrite Hd, Hcr. simpl. exists r. auto.
Qed.

Lemma listed_is_resolvable_witness :
  exists r rs,
    LocalResolver.list_all fs_both_buckets local_default = Return rs /\
    In r rs /\ version r = "2.0.0" /\
    exists r', LocalResolver.resolve fs_both_buckets local_default "x" (Some "2.0.0")
                 = Return (Some r') /\ In r' rs.
Proof.
  exists (mkResult "x" "2.0.0" "./.forge/tools/x/2.0.0" "local"
            [("name", VStr "x"); ("version", VStr "2.0.0"); ("description", VStr "sample")]).
  eexists. split; [reflexivity|]. split; [simpl; auto|]. split; [reflexivity|].
  destruct (listed_is_resolvable fs_both_buckets local_default ["./.forge"] _
              (mkResult "x" "2.0.0" "./.forge/tools/x/2.0.0" "local"
                 [("name", VStr "x"); ("version", VStr "2.0.0");
                  ("description", VStr "sample")])
              eq_refl eq_refl) as (r' & Hr & _ & _ & Hin').
  - simpl. auto.
  - simpl. intros [H|[]]. discriminate H.
  - discriminate.
  - exists r'. split; [exact Hr | exact Hin'].
Defined.

(** ** The remote resolver *)

(** [resolve] by the request it sends. *)
Lemma remote_resolve_unfold (get : http) (self : RemoteResolver.t) (token : string)
      (requested : option string) :
  RemoteResolver.resolve get self token requested =
  try_except
    (response <- get (fst (resolve_request self token requested))
                     (snd (resolve_request self token requested)) ;;
     if (status_code response =? 404)%Z then Return None
     else if negb (status_code response =? 200)%Z then
       Raise (NetworkError (Some (status_code response)) None)
     else
       data <- response_json response ;;
       r <- RemoteResolver.decode data ;;
       Return (Some r))
    is_HTTPError
    (fun e => Raise (NetworkError None (Some (RemoteResolver.registry_url self)))).
Proof.
  unfold RemoteResolver.resolve, resolve_request.
  destruct (BaseResolver._parse_name_version token) as [pn pv]. cbn [fst snd].
  destruct (if_str (py_or requested pv)); reflexivity.
Qed.

(** X9: [RemoteResolver.resolve] sends one GET to url/api/v1/resolve with
    the token's name part and, when there is one, the version.  A 404 answer
    is absent; any other answer than 200 is a [NetworkError] with the status;
    a transport error of the client is a [NetworkError] with the registry
    URL; a 200 answer whose body is not JSON leaves as the decoder's error;
    and no [httpx.HTTPError] ever leaves [resolve]. *)
Theorem remote_resolve_status_contract
        (get : http) (self : RemoteResolver.t) (token : string)
        (requested : option string) :
  let request := resolve_request self token requested in
  let answer := get (fst request) (snd request) in
  let result := RemoteResolver.resolve get self token requested in
  (forall resp, answer = Return resp -> status_code resp = 404%Z ->
     result = Return None) /\
  (forall resp, answer = Return resp ->
     status_code resp <> 404%Z -> status_code resp <> 200%Z ->
     result = Raise (NetworkError (Some (status_code resp)) None)) /\
  (forall what, answer = Raise (HTTPError what) ->
     result = Raise (NetworkError None (Some (RemoteResolver.registry_url self)))) /\
  (forall resp, answer = Return resp -> status_code resp = 200%Z -> body resp = None ->
     result = Raise JSONDecodeError) /\
  (forall e, result = Raise e -> is_HTTPError e = false) /\
  (forall r, result = Return (Some r) ->
     exists resp data, answer = Return resp /\ status_code resp = 200%Z /\
                       body resp = Some data /\ RemoteResolver.decode data = Return r).
Proof.
  intros request answer result. unfold result. rewrite remote_resolve_unfold.
  fold request. fold answer. clearbody answer. unfold try_except.
  split; [|split; [|split; [|split; [|split]]]].
  - intros resp -> H404. unfold obind. now rewrite H404.
  - intros resp -> H404 H200. unfold obind.
    apply Z.eqb_neq in H404. apply Z.eqb_neq in H200. now rewrite H404, H200.
  - now intros what ->.
  - intros resp -> H200 Hb. unfold obind, response_json. now rewrite H200, Hb.
  - intros e.
    match goal with
    | |- match ?b with Return _ => _ | Raise _ => _ end = _ -> _ =>
        destruct b as [o|e1]
    end; [discriminate|].
    destruct (is_HTTPError e1) eqn:He; intros [= <-]; [reflexivity | exact He].
  - intros r. unfold obind. destruct answer as [resp|e0].
    + destruct (status_code resp =? 404)%Z eqn:H404; [discriminate|].
      destruct (status_code resp =? 200)%Z eqn:H200; simpl; [|discriminate].
      unfold response_json. destruct (body resp) as [data|] eqn:Hb; [|discriminate].
      destruct (RemoteResolver.decode data) as [r'|e1] eqn:D;
        [|destruct (is_HTTPError e1); discriminate].
      intros [= <-]. exists resp, data. apply Z.eqb_eq in H200. auto.
    + destruct (is_HTTPError e0); discriminate.
Qed.

Lemma remote_resolve_status_contract_witness :
  RemoteResolver.resolve (fun _ _ => Return (mkResponse 404 None)) remote_default "a" None
    = Return None /\
  RemoteResolver.resolve (fun _ _ => Return (mkResponse 503 None)) remote_default "a" None
    = Raise (NetworkError (Some 503%Z) None) /\
  RemoteResolver.resolve remote_down remote_default "a" None
    = Raise (NetworkError None (Some "https://registry.fractary.com")).
Proof.
  split; [|split].
  - apply (proj1 (remote_resolve_status_contract
                    (fun _ _ => Return (mkResponse 404 None)) remote_default "a" None)
             (mkResponse 404 None)); reflexivity.
  - apply (proj1 (proj2 (remote_resolve_status_contract
                           (fun _ _ => Return (mkResponse 503 None)) remote_default "a" None))
             (mkResponse 503 None)); [reflexivity | discriminate | discriminate].
  - apply (proj1 (proj2 (proj2 (remote_resolve_status_contract
                                  remote_down remote_default "a" None)))
             "ConnectError"); reflexivity.
Defined.

Lemma decode_items_spec (items : list value) (rs : list ResolutionResult) :
  RemoteResolver.decode_items items = Return rs ->
  List.length rs = List.length items /\
  Forall (fun r => source r = "remote") rs.
Proof.
  revert rs. induction items as [|item items IH]; simpl; intros rs.
  - intros [= <-]. split; [reflexivity | constructor].
  - destruct (RemoteResolver.decode item) as [r|e] eqn:D; simpl; [|discriminate].
    destruct (RemoteResolver.decode_items items) as [rs'|e]; simpl; [|discriminate].
    intros [= <-]. destruct (IH rs' eq_refl) as [Hl Hf]. simpl. split; [now rewrite Hl|].
    constructor; [now apply decode_source in D | exact Hf].
Qed.

(** X10: [RemoteResolver.list_all] sends one GET to url/api/v1/list.  Any
    status other than 200, a 404 included, is a [NetworkError] with the
    status; a 200 answer whose mapping has no "items" is the empty list; a
    transport error is a [NetworkError] with the registry URL and no
    [httpx.HTTPError] leaves the method; when "items" is a list and the
    method returns, it returns one result per item, in order, each tagged
    "remote". *)
Theorem remote_list_all_contract (get : http) (self : RemoteResolver.t) :
  let answer := get (RemoteResolver.registry_url self ++ "/api/v1/list")%string [] in
  let result := RemoteResolver.list_all get self in
  (forall resp, answer = Return resp -> status_code resp <> 200%Z ->
     result = Raise (NetworkError (Some (status_code resp)) None)) /\
  (forall resp d, answer = Return resp -> status_code resp = 200%Z ->
     body resp = Some (VDict d) -> assoc "items" d = None ->
     result = Return []) /\
  (forall what, answer = Raise (HTTPError what) ->
     result = Raise (NetworkError None (Some (RemoteResolver.registry_url self)))) /\
  (forall e, result = Raise e -> is_HTTPError e = false) /\
  (forall rs, result = Return rs -> Forall (fun r => source r = "remote") rs) /\
  (forall resp d items rs, answer = Return resp -> status_code resp = 200%Z ->
     body resp = Some (VDict d) -> assoc "items" d = Some (VList items) ->
     result = Return rs ->
     RemoteResolver.decode_items items = Return rs /\
     List.length rs = List.length items).
Proof.
  intros answer result. unfold result, RemoteResolver.list_all. fold answer.
  clearbody answer. unfold try_except.
  split; [|split; [|split; [|split; [|split]]]].
  - intros resp -> H200. unfold obind. apply Z.eqb_neq in H200. now rewrite H200.
  - intros resp d -> H200 Hb Hi. unfold obind, response_json, dict_get.
    now rewrite H200, Hb, Hi.
  - now intros what ->.
  - intros e.
    match goal with
    | |- match ?b with Return _ => _ | Raise _ => _ end = _ -> _ =>
        destruct b as [o|e1]
    end; [discriminate|].
    destruct (is_HTTPError e1) eqn:He; intros [= <-]; [reflexivity | exact He].
  - intros rs.
    match goal with
    | |- match ?b with Return _ => _ | Raise _ => _ end = _ -> _ =>
        destruct b as [o|e1] eqn:B
    end; [|destruct (is_HTTPError e1); discriminate].
    intros [= ->]. revert B. unfold obind.
    destruct answer as [resp|]; [|discriminate].
    destruct (negb (status_code resp =? 200)%Z); [discriminate|].
    destruct (response_json resp) as [data|]; [|discriminate].
    destruct (dict_get data "items" (VList [])) as [items|]; [|discriminate].
    destruct (RemoteResolver.iter_items items) as [l|]; [|discriminate].
    intros H. now apply decode_items_spec in H.
  - intros resp d items rs -> H200 Hb Hi. unfold obind, response_json, dict_get.
    rewrite H200, Hb, Hi. simpl.
    destruct (RemoteResolver.decode_items items) as [rs'|e1] eqn:D;
      [|destruct (is_HTTPError e1); discriminate].
    intros [= <-]. split; [reflexivity|]. now apply decode_items_spec in D.
Qed.

Lemma remote_list_all_contract_witness :
  RemoteResolver.list_all (fun _ _ => Return (mkResponse 404 None)) remote_default
    = Raise (NetworkError (Some 404%Z) None) /\
  RemoteResolver.list_all (remote_answers (VDict [])) remote_default = Return [].
Proof.
  split.
  - apply (proj1 (remote_list_all_contract
                    (fun _ _ => Return (mkResponse 404 None)) remote_default)
             (mkResponse 404 None)); [reflexivity | discriminate].
  - apply (proj1 (proj2 (remote_list_all_contract (remote_answers (VDict [])) remote_default))
             (mkResponse 200 (Some (VDict []))) []); reflexivity.
Defined.

(** ** What listing raises *)

Lemma is_dir_iterdir (fs : node) (p : Path) :
  is_dir fs p = true -> exists ds, iterdir fs p = Return ds.
Proof.
  unfold is_dir, iterdir. destruct (lookup fs p) as [[c|es]|]; try discriminate. eauto.
Qed.

Lemma list_versions_raises (fs : node) (n : string) (ds : list Path)
      (acc : list ResolutionResult) (e : exn) :
  LocalResolver.list_versions fs n ds acc = Raise e -> unreadable_document fs e.
Proof.
  revert acc. induction ds as [|d ds IH]; simpl; intros acc; [discriminate|].
  destruct (is_dir fs d); simpl; [|apply IH].
  destruct (exists_ fs (d ++ ["definition.yaml"])) eqn:Hd; [|apply IH].
  destruct (LocalResolver._create_result fs n (basename d) _) as [r|e'] eqn:E; simpl;
    [apply IH|].
  intros [= <-]. exists n, (d ++ ["definition.yaml"]).
  split; [now apply create_result_raises in E|]. split; [exact Hd|].
  intros Hl. destruct (create_result_loadable fs n (basename d) _ Hl) as [r Hr]. congruence.
Qed.

Lemma list_names_raises (fs : node) (ds : list Path) (acc : list ResolutionResult) (e : exn) :
  LocalResolver.list_names fs ds acc = Raise e -> unreadable_document fs e.
Proof.
  revert acc. induction ds as [|d ds IH]; simpl; intros acc; [discriminate|].
  destruct (is_dir fs d) eqn:Hdir; simpl; [|apply IH].
  destruct (is_dir_iterdir fs d Hdir) as [vs ->]. simpl.
  destruct (LocalResolver.list_versions fs (basename d) vs acc) as [acc'|e'] eqn:E; simpl;
    [apply IH|].
  intros [= <-]. eapply list_versions_raises; eassumption.
Qed.

Lemma list_types_raises (fs : node) (root : Path) (tys : list string)
      (acc : list ResolutionResult) (e : exn) :
  LocalResolver.list_types fs root tys acc = Raise e ->
  unreadable_document fs e \/ listed_a_file fs e.
Proof.
  revert acc. induction tys as [|ty tys IH]; simpl; intros acc; [discriminate|].
  destruct (exists_ fs (root ++ [ty])) eqn:Hty; simpl; [|apply IH].
  destruct (iterdir fs (root ++ [ty])) as [ns|e'] eqn:Hns; simpl.
  - destruct (LocalResolver.list_names fs ns acc) as [acc'|e'] eqn:E; simpl; [apply IH|].
    intros [= <-]. left. eapply list_names_raises; eassumption.
  - intros [= <-]. right. exists (root ++ [ty]).
    pose proof Hty as Hty'.
    unfold iterdir in Hns. unfold exists_ in Hty. unfold is_dir.
    destruct (lookup fs (root ++ [ty])) as [[c|es]|]; try discriminate.
    injection Hns as <-. repeat split. exact Hty'.
Qed.

Lemma list_all_raises (fs : node) (self : LocalResolver.t) (e : exn) :
  LocalResolver.list_all fs self = Raise e ->
  unreadable_document fs e \/ listed_a_file fs e.
Proof.
  unfold LocalResolver.list_all.
  destruct (LocalResolver.registry_path self) as [root|]; [|discriminate].
  destruct (exists_ fs root); cbn [negb]; [|discriminate].
  apply list_types_raises.
Qed.

(** ** The registry's [list] *)

Section RegistryList.

Variables (w : world) (self : Registry.t).

Let in_local := LocalResolver.list_all (fs w) (Registry.local_resolver self).
Let in_global := GlobalResolver.list_all (fs w) (Registry.global_resolver self).
Let in_remote := RemoteResolver.list_all (remote w) (Registry.remote_resolver self).

(** What the remote tier adds to a listing: nothing unless a URL is
    configured and the remote listing returns. *)
Let remote_part : list ResolutionResult :=
  if Registry.remote_configured self then
    match in_remote with
    | Return rs => rs
    | Raise _ => []
    end
  else [].

Lemma list_local_only : Registry.list_ w self (Some "local") = (in_local, [CallListAll Local]).
Proof.
  unfold Registry.list_, bind, call, ret. simpl. fold in_local.
  destruct in_local as [ls|e]; reflexivity.
Qed.

Lemma list_global_only :
  Registry.list_ w self (Some "global") = (in_global, [CallListAll Global]).
Proof.
  unfold Registry.list_, bind, call, ret. simpl. fold in_global.
  destruct in_global as [gs|e]; reflexivity.
Qed.

Lemma list_remote_only : fst (Registry.list_ w self (Some "remote")) = Return remote_part.
Proof.
  unfold Registry.list_, bind, call, ret, try_catch, remote_part. simpl.
  destruct (Registry.remote_configured self); [|reflexivity].
  fold in_remote. destruct in_remote as [rs|e]; reflexivity.
Qed.

Lemma list_everything :
  fst (Registry.list_ w self None) =
  match in_local with
  | Raise e => Raise e
  | Return ls =>
    match in_global with
    | Raise e => Raise e
    | Return gs => Return (ls ++ gs ++ remote_part)
    end
  end.
Proof.
  unfold Registry.list_, bind, call, ret, try_catch, remote_part. simpl.
  fold in_local. destruct in_local as [ls|e]; [|reflexivity]. simpl.
  fold in_global. destruct in_global as [gs|e]; [|reflexivity]. simpl.
  destruct (Registry.remote_configured self); simpl.
  - fold in_remote. destruct in_remote as [rs|e]; simpl.
    + now rewrite app_assoc.
    + now rewrite app_nil_r.
  - now rewrite app_nil_r.
Qed.

Lemma list_other (s : string) :
  s <> "local" -> s <> "global" -> s <> "remote" ->
  Registry.list_ w self (Some s) = (Return [], []).
Proof.
  intros H1 H2 H3. unfold Registry.list_, Registry.source_selects.
  apply String.eqb_neq in H1. apply String.eqb_neq in H2. apply String.eqb_neq in H3.
  now rewrite H1, H2, H3.
Qed.

End RegistryList.




(** ** [exists] and [info] *)





(** ** Registries that are not there *)

Lemma local_resolve_no_root (fs : node) (self : LocalResolver.t) (token : string)
      (requested : option string) :
  (forall root, LocalResolver.registry_path self = Some root -> exists_ fs root = false) ->
  LocalResolver.resolve fs self token requested = Return None /\
  LocalResolver.list_all fs self = Return [].
Proof.
  intros H. unfold LocalResolver.resolve, LocalResolver.list_all.
  destruct (LocalResolver.registry_path self) as [root|]; [|auto].
  now rewrite (H root eq_refl).
Qed.

(** X13: a missing registry directory is not an error.  When neither the
    project-level nor the user-level registry directory exists (or the path is
    empty) and no remote URL is configured, then for every token, version and
    filter: [resolve] raises the not-found error, [exists] is false, and
    [list] is empty. *)
Theorem registry_without_directories
        (w : world) (self : Registry.t) (token : string) (requested : option string)
        (source : option string) :
  (forall root, LocalResolver.registry_path (Registry.local_resolver self) = Some root ->
                exists_ (fs w) root = false) ->
  (forall root, LocalResolver.registry_path (Registry.global_resolver self) = Some root ->
                exists_ (fs w) root = false) ->
  Registry.remote_configured self = false ->
  fst (Registry.resolve w self token requested true) =
    Raise (Registry.not_found (Registry.artifact self) token requested
                              ["local"; "global"; "remote"]) /\
  fst (Registry.exists_ w self token requested) = Return false /\
  fst (Registry.list_ w self source) = Return [].
Proof.
  intros Hl Hg Hr.
  destruct (local_resolve_no_root (fs w) _ token requested Hl) as [Hl1 Hl2].
  destruct (local_resolve_no_root (fs w) _ token requested Hg) as [Hg1 Hg2].
  assert (Hres : fst (Registry.resolve w self token requested true) =
                 Raise (Registry.not_found (Registry.artifact self) token requested
                                           ["local"; "global"; "remote"])).
  { rewrite resolve_cases. cbv zeta. unfold GlobalResolver.resolve.
    now rewrite Hl1, Hg1, Hr. }
  split; [exact Hres|]. split.
  - rewrite exists_cases, Hres. now rewrite is_not_found_not_found.
  - destruct source as [s|].
    + destruct (String.eqb_spec s "local") as [->|H1].
      { now rewrite list_local_only, Hl2. }
      destruct (String.eqb_spec s "global") as [->|H2].
      { rewrite list_global_only. unfold GlobalResolver.list_all. now rewrite Hg2. }
      destruct (String.eqb_spec s "remote") as [->|H3].
      { now rewrite list_remote_only, Hr. }
      now rewrite (list_other w self s H1 H2 H3).
    + rewrite list_everything. unfold GlobalResolver.list_all. now rewrite Hl2, Hg2, Hr.
Qed.

Lemma registry_without_directories_witness :
  fst (ToolRegistry.tool_exists world_nothing (ToolRegistry.__init__ world_nothing None)
         "formatter" None) = Return false /\
  fst (ToolRegistry.tool_list world_nothing (ToolRegistry.__init__ world_nothing None) None)
    = Return [].
Proof.
  assert (H : forall root : Path, Some ["./.forge"] = Some root ->
                                  exists_ fs_empty root = false).
  { intros root [= <-]. reflexivity. }
  assert (H' : forall root : Path, Some ["/home/u/.forge"] = Some root ->
                                   exists_ fs_empty root = false).
  { intros root [= <-]. reflexivity. }
  destruct (registry_without_directories world_nothing
              (ToolRegistry.__init__ world_nothing None) "formatter" None None
              H H' eq_refl) as (_ & He & Hl).
  split; [exact He | exact Hl].
Defined.

(** * The configuration loader *)

(** ** Dictionaries *)

Lemma assoc_dict_set_eq (k : string) (v : value) (d : list (string * value)) :
  assoc k (dict_set k v d) = Some v.
Proof.
  induction d as [|[k' v'] d IH]; simpl.
  - now rewrite String.eqb_refl.
  - destruct (String.eqb_spec k k') as [->|Hne]; simpl.
    + now rewrite String.eqb_refl.
    + apply String.eqb_neq in Hne. now rewrite Hne.
Qed.

Lemma assoc_dict_set_ne (k k' : string) (v : value) (d : list (string * value)) :
  k <> k' -> assoc k' (dict_set k v d) = assoc k' d.
Proof.
  intros Hne. induction d as [|[k0 v0] d IH]; simpl.
  - assert (k' <> k) as H by congruence. apply String.eqb_neq in H. now rewrite H.
  - destruct (String.eqb_spec k k0) as [->|Hk]; simpl.
    + assert (k' <> k0) as H by congruence. apply String.eqb_neq in H. now rewrite H.
    + now rewrite IH.
Qed.

Lemma assoc_dict_set (k k' : string) (v : value) (d : list (string * value)) :
  assoc k' (dict_set k v d) = if k' =? k then Some v else assoc k' d.
Proof.
  destruct (String.eqb_spec k' k) as [->|Hne].
  - apply assoc_dict_set_eq.
  - apply assoc_dict_set_ne. congruence.
Qed.

(** Assignment keeps the keys in place and puts a new key last. *)
Lemma keys_dict_set (k : string) (v : value) (d : list (string * value)) :
  map fst (dict_set k v d) = if has_key k d then map fst d else map fst d ++ [k].
Proof.
  unfold has_key. induction d as [|[k' v'] d IH]; simpl; [reflexivity|].
  destruct (String.eqb_spec k k') as [->|Hne]; simpl; [reflexivity|].
  rewrite IH. now destruct (assoc k d).
Qed.

(** ** [get] *)

Lemma str_split_plain (c : ascii) (s : string) :
  str_contains c s = false -> str_split c s = [s].
Proof.
  induction s as [|a s IH]; simpl; [reflexivity|].
  destruct (Ascii.eqb a c); [discriminate|]. intros H. now rewrite IH.
Qed.

Lemma str_split_append (c : ascii) (k rest : string) :
  str_contains c k = false ->
  str_split c (k ++ String c rest) = k :: str_split c rest.
Proof.
  induction k as [|a k IH]; simpl.
  - now rewrite Ascii.eqb_refl.
  - destruct (Ascii.eqb a c); [discriminate|]. intros H. now rewrite IH.
Qed.

Lemma str_split_nonempty (c : ascii) (s : string) :
  exists part parts, str_split c s = part :: parts.
Proof.
  induction s as [|a s (part & parts & IH)]; simpl; [eauto|].
  destruct (Ascii.eqb a c); [eauto|]. rewrite IH. eauto.
Qed.

(** X14: [get] follows a dotted key through nested mappings.  For a first
    part without a dot: the key alone gives the value stored under it (also
    when that value is None) and the default only when the key is missing;
    with more parts after a dot it continues inside the mapping stored under
    the first part, and gives the default when the first part is missing or
    holds anything that is not a mapping. *)
Theorem get_follows_dotted_key
        (config : list (string * value)) (k rest : string) (default : value) :
  ~ In "."%char (list_ascii_of_string k) ->
  ConfigLoader.get config k default =
    match assoc k config with
    | Some v => v
    | None => default
    end /\
  ConfigLoader.get config (k ++ String "."%char rest) default =
    match assoc k config with
    | Some (VDict d) => ConfigLoader.get d rest default
    | _ => default
    end.
Proof.
  intros Hk. apply str_contains_false in Hk. unfold ConfigLoader.get.
  rewrite (str_split_plain _ _ Hk), (str_split_append _ _ rest Hk). simpl.
  split; [reflexivity|].
  destruct (assoc k config) as [v|]; [|reflexivity].
  destruct (str_split_nonempty "."%char rest) as (part & parts & ->).
  destruct v; reflexivity.
Qed.

Lemma get_follows_dotted_key_witness :
  ConfigLoader.get ConfigLoader.DEFAULT_CONFIG "registry.global_path" (VStr "fallback")
    = VNone /\
  ConfigLoader.get ConfigLoader.DEFAULT_CONFIG "registry.local_path.deeper" (VStr "fallback")
    = VStr "fallback".
Proof.
  assert (Hk : ~ In "."%char (list_ascii_of_string "registry")).
  { simpl. intuition discriminate. }
  split.
  - refine (eq_trans (proj2 (get_follows_dotted_key ConfigLoader.DEFAULT_CONFIG "registry"
                               "global_path" (VStr "fallback") Hk)) _). reflexivity.
  - refine (eq_trans (proj2 (get_follows_dotted_key ConfigLoader.DEFAULT_CONFIG "registry"
                               "local_path.deeper" (VStr "fallback") Hk)) _). reflexivity.
Defined.

(** ** [_deep_merge] *)

(** One round of the loop of [_deep_merge]. *)
Lemma deep_merge_cons (target : list (string * value)) (k : string) (v : value)
      (rest : list (string * value)) :
  ConfigLoader._deep_merge target ((k, v) :: rest) =
  ConfigLoader._deep_merge
    (dict_set k
       match assoc k target, v with
       | Some (VDict sub), VDict s => VDict (ConfigLoader._deep_merge sub s)
       | _, _ => v
       end target)
    rest.
Proof.
  unfold ConfigLoader._deep_merge. simpl.
  destruct (assoc k target) as [[]|]; destruct v; reflexivity.
Qed.

Lemma assoc_not_in (k : string) (d : list (string * value)) :
  ~ In k (map fst d) -> assoc k d = None.
Proof.
  induction d as [|[k' v] d IH]; simpl; [reflexivity|].
  intros H. destruct (String.eqb_spec k k') as [->|_]; [exfalso; auto | auto].
Qed.

(** [_deep_merge] never removes a key. *)
Lemma deep_merge_keeps_keys (source target : list (string * value)) (k : string) :
  has_key k target = true -> has_key k (ConfigLoader._deep_merge target source) = true.
Proof.
  revert target. induction source as [|[k0 v0] source IH]; intros target H; [exact H|].
  rewrite deep_merge_cons. apply IH. unfold has_key in *.
  rewrite assoc_dict_set. destruct (k =? k0); [reflexivity | exact H].
Qed.

(** X15: [_deep_merge] of a mapping into a target.  Under a key of the
    source the result holds the merge of the two values when both are
    mappings, and the source's value otherwise; every other key keeps the
    target's value.  The target's keys stay in their order and the source's
    new keys follow in the source's order; no key is removed. *)
Theorem deep_merge_by_key (target source : list (string * value)) :
  NoDup (map fst source) ->
  (forall key,
     assoc key (ConfigLoader._deep_merge target source) =
     match assoc key source with
     | Some v =>
       Some match assoc key target, v with
            | Some (VDict sub), VDict s => VDict (ConfigLoader._deep_merge sub s)
            | _, _ => v
            end
     | None => assoc key target
     end) /\
  map fst (ConfigLoader._deep_merge target source) =
    map fst target ++ filter (fun k => negb (has_key k target)) (map fst source).
Proof.
  revert target. induction source as [|[k v] source IH]; intros target Hnd.
  - split; [reflexivity|]. simpl. now rewrite app_nil_r.
  - inversion Hnd as [|k' l Hk Hnd']; subst. rewrite deep_merge_cons.
    set (stored := match assoc k target, v with
                   | Some (VDict sub), VDict s => VDict (ConfigLoader._deep_merge sub s)
                   | _, _ => v
                   end).
    destruct (IH (dict_set k stored target) Hnd') as [Hval Hkeys]. split.
    + intros key. rewrite Hval. simpl.
      destruct (String.eqb_spec key k) as [->|Hne].
      * rewrite (assoc_not_in k source Hk). apply assoc_dict_set_eq.
      * rewrite (assoc_dict_set_ne k key stored target) by congruence. reflexivity.
    + rewrite Hkeys, keys_dict_set. simpl.
      assert (Hf : filter (fun k0 => negb (has_key k0 (dict_set k stored target)))
                          (map fst source)
                   = filter (fun k0 => negb (has_key k0 target)) (map fst source)).
      { apply filter_ext_in. intros k0 Hin. unfold has_key.
        rewrite assoc_dict_set_ne; [reflexivity|]. intros ->. contradiction. }
      rewrite Hf. destruct (has_key k target); simpl; [reflexivity|].
      now rewrite <- app_assoc.
Qed.

Lemma deep_merge_by_key_witness :
  let file := [("registry", VDict [("local_path", VStr "./registry")]);
               ("plugins", VList [])] in
  ConfigLoader.get (ConfigLoader._deep_merge ConfigLoader.DEFAULT_CONFIG file)
                   "registry.remote_url" VNone = VStr "https://registry.fractary.com" /\
  map fst (ConfigLoader._deep_merge ConfigLoader.DEFAULT_CONFIG file) =
    ["registry"; "cache"; "agent"; "tool"; "logging"; "plugins"].
Proof.
  intros file.
  assert (Hnd : NoDup (map fst file)).
  { simpl. repeat constructor; simpl; intuition discriminate. }
  destruct (deep_merge_by_key ConfigLoader.DEFAULT_CONFIG file Hnd) as [Hval Hkeys].
  split; [|exact Hkeys].
  unfold ConfigLoader.get.
  change (str_split "." "registry.remote_url") with ["registry"; "remote_url"].
  cbn [ConfigLoader.walk]. rewrite (Hval "registry"). reflexivity.
Defined.

(** ** [load] *)

Lemma load_unfold (s : ConfigLoader.surroundings) (config_path : option string) :
  ConfigLoader.load s config_path =
  ConfigLoader.and_then
    match if_str config_path with
    | Some path => ConfigLoader._load_from_file s path (builtin_defaults s)
    | None => ConfigLoader.load_first s (ConfigLoader.default_locations s) (builtin_defaults s)
    end
    (ConfigLoader._load_from_env s).
Proof. reflexivity. Qed.

Lemma if_str_some (v : string) : v <> "" -> if_str (Some v) = Some v.
Proof.
  intros H. simpl. unfold str_truthy.
  destruct (String.eqb_spec v ""); [contradiction | reflexivity].
Qed.

Lemma if_str_inv (o : option string) (v : string) :
  if_str o = Some v -> o = Some v /\ v <> "".
Proof.
  destruct o as [x|]; simpl; [|discriminate]. unfold str_truthy.
  destruct (String.eqb_spec x ""); simpl; [discriminate|]. now intros [= <-].
Qed.

Lemma append_not_empty (a b : string) : b <> "" -> (a ++ b)%string <> "".
Proof.
  destruct a; simpl; [auto | discriminate].
Qed.

(** [_load_from_file] on a file it accepts, and on any other. *)
Lemma load_from_file_cases (s : ConfigLoader.surroundings) (path : string)
      (config : list (string * value)) :
  match ConfigLoader.file_at s path with
  | None => ConfigLoader._load_from_file s path config = ConfigLoader.Ok config
  | Some n =>
    (config_file_ok n /\
     exists source,
       ConfigLoader._load_from_file s path config
         = ConfigLoader.Ok (ConfigLoader._deep_merge config source) /\
       (n = File (YamlDoc (VDict source)) \/
        (source = [] /\ exists v, n = File (YamlDoc v) /\ truthy v = false))) \/
    (~ config_file_ok n /\
     ConfigLoader._load_from_file s path config = ConfigLoader.Err (ConfigLoader.ConfigError path))
  end.
Proof.
  unfold ConfigLoader._load_from_file, config_file_ok.
  destruct (ConfigLoader.file_at s path) as [[[|v]|es]|]; [| | |reflexivity].
  - right. split; [|reflexivity]. intros (v & H & _). discriminate H.
  - destruct (truthy v) eqn:T.
    + destruct v; try (right; split; [|reflexivity];
                       intros (v' & [= <-] & [H|(d' & H)]); simpl in *; congruence).
      left. split; [eauto|]. exists d. auto.
    + left. split; [eauto|]. exists []. split; [reflexivity|]. right. eauto.
  - right. split; [|reflexivity]. intros (v & H & _). discriminate H.
Qed.

(** X16: which file [load] reads.  A given path that names no file is
    skipped silently and the default locations are not tried; without a path
    (or with the empty string) the project file ./.forge/config.yaml is read
    when it exists and then the user file is never looked at; otherwise the
    user file under the home directory is read when it exists. *)
Theorem load_reads_one_file (s : ConfigLoader.surroundings) :
  let project := "./.forge/config.yaml" in
  let user := (ConfigLoader.home_dir s ++ "/.forge/config.yaml")%string in
  (forall path, path <> "" -> ConfigLoader.file_at s path = None ->
     ConfigLoader.load s (Some path) = ConfigLoader._load_from_env s (builtin_defaults s)) /\
  (ConfigLoader.file_at s project <> None ->
     ConfigLoader.load s None = ConfigLoader.load s (Some project)) /\
  (ConfigLoader.file_at s project = None ->
     ConfigLoader.load s None = ConfigLoader.load s (Some user)) /\
  ConfigLoader.load s (Some "") = ConfigLoader.load s None.
Proof.
  intros project user. split; [|split; [|split]].
  - intros path Hp Hnone. rewrite load_unfold, (if_str_some path Hp).
    unfold ConfigLoader._load_from_file. now rewrite Hnone.
  - intros Hex. rewrite !load_unfold. simpl.
    fold project. destruct (ConfigLoader.file_at s project); [reflexivity | congruence].
  - intros Hnone. rewrite !load_unfold.
    rewrite (if_str_some user) by (apply append_not_empty; discriminate).
    simpl. fold project. rewrite Hnone. fold user.
    destruct (ConfigLoader.file_at s user) eqn:Hu; [reflexivity|].
    unfold ConfigLoader._load_from_file. now rewrite Hu.
  - reflexivity.
Qed.

Lemma load_reads_one_file_witness :
  ConfigLoader.load (sample_surroundings project_config no_env) None =
  ConfigLoader.load (sample_surroundings project_config no_env) (Some "./.forge/config.yaml") /\
  ConfigLoader.load (sample_surroundings no_files no_env) (Some "missing.yaml") =
  ConfigLoader.Ok (builtin_defaults (sample_surroundings no_files no_env)).
Proof.
  split.
  - apply (proj1 (proj2 (load_reads_one_file (sample_surroundings project_config no_env)))).
    discriminate.
  - rewrite (proj1 (load_reads_one_file (sample_surroundings no_files no_env))
               "missing.yaml"); [reflexivity | discriminate | reflexivity].
Defined.

(** ** The environment overrides *)

Lemma setitem2_same (c c' : list (string * value)) (sec key : string) (v : value) :
  ConfigLoader.setitem2 c sec key v = ConfigLoader.Ok c' ->
  ConfigLoader.getitem2 c' sec key = ConfigLoader.Ok v.
Proof.
  unfold ConfigLoader.setitem2, ConfigLoader.getitem2.
  destruct (assoc sec c) as [[]|]; try discriminate. intros [= <-].
  now rewrite assoc_dict_set_eq, assoc_dict_set_eq.
Qed.

Lemma setitem2_other (c c' : list (string * value)) (sec key sec' key' : string) (v : value) :
  ConfigLoader.setitem2 c sec key v = ConfigLoader.Ok c' ->
  sec' <> sec \/ key' <> key ->
  ConfigLoader.getitem2 c' sec' key' = ConfigLoader.getitem2 c sec' key'.
Proof.
  unfold ConfigLoader.setitem2, ConfigLoader.getitem2.
  destruct (assoc sec c) as [[]|] eqn:E; try discriminate. intros [= <-] Hne.
  rewrite assoc_dict_set. destruct (String.eqb_spec sec' sec) as [->|_]; [|reflexivity].
  rewrite E. destruct Hne as [H|H]; [congruence|].
  rewrite assoc_dict_set_ne by congruence. reflexivity.
Qed.

Lemma setitem2_keys (c c' : list (string * value)) (sec key k : string) (v : value) :
  ConfigLoader.setitem2 c sec key v = ConfigLoader.Ok c' ->
  has_key k c = true -> has_key k c' = true.
Proof.
  unfold ConfigLoader.setitem2, has_key.
  destruct (assoc sec c) as [[]|]; try discriminate. intros [= <-].
  rewrite assoc_dict_set. now destruct (k =? sec).
Qed.

Section Override.

Variables (s : ConfigLoader.surroundings) (name sec key : string) (f : string -> value).

Lemma env_override_same (c c' : list (string * value)) :
  ConfigLoader.env_override s name sec key f c = ConfigLoader.Ok c' ->
  ConfigLoader.getitem2 c' sec key =
  match if_str (ConfigLoader.getenv s name) with
  | Some v => ConfigLoader.Ok (f v)
  | None => ConfigLoader.getitem2 c sec key
  end.
Proof.
  unfold ConfigLoader.env_override.
  destruct (if_str (ConfigLoader.getenv s name)) as [v|].
  - apply setitem2_same.
  - now intros [= <-].
Qed.

Lemma env_override_other (c c' : list (string * value)) (sec' key' : string) :
  ConfigLoader.env_override s name sec key f c = ConfigLoader.Ok c' ->
  sec' <> sec \/ key' <> key ->
  ConfigLoader.getitem2 c' sec' key' = ConfigLoader.getitem2 c sec' key'.
Proof.
  unfold ConfigLoader.env_override.
  destruct (if_str (ConfigLoader.getenv s name)) as [v|].
  - apply setitem2_other.
  - now intros [= <-].
Qed.

Lemma env_override_keys (c c' : list (string * value)) (k : string) :
  ConfigLoader.env_override s name sec key f c = ConfigLoader.Ok c' ->
  has_key k c = true -> has_key k c' = true.
Proof.
  unfold ConfigLoader.env_override.
  destruct (if_str (ConfigLoader.getenv s name)) as [v|].
  - apply setitem2_keys.
  - now intros [= <-].
Qed.

(** An override fails only by assigning into a section that is no mapping. *)
Lemma env_override_fails (c : list (string * value)) (e : ConfigLoader.raised) :
  ConfigLoader.env_override s name sec key f c = ConfigLoader.Err e ->
  has_key sec c = true ->
  e = ConfigLoader.TypeError /\ exists v, env_set s name v.
Proof.
  unfold ConfigLoader.env_override, ConfigLoader.setitem2, has_key, env_set.
  destruct (if_str (ConfigLoader.getenv s name)) as [v|] eqn:E; [|discriminate].
  apply if_str_inv in E.
  destruct (assoc sec c) as [[]|]; try discriminate; intros [= <-] _; eauto.
Qed.

Lemma env_override_unset (c : list (string * value)) :
  if_str (ConfigLoader.getenv s name) = None ->
  ConfigLoader.env_override s name sec key f c = ConfigLoader.Ok c.
Proof. intros H. unfold ConfigLoader.env_override. now rewrite H. Qed.

End Override.

(** Reading a section's key through [get]. *)
Lemma get_section_key (c : list (string * value)) (sec key : string) (default : value) :
  str_contains "."%char sec = false ->
  str_contains "."%char key = false ->
  ConfigLoader.get c (sec ++ String "."%char key) default =
  match assoc sec c with
  | Some (VDict d) =>
    match assoc key d with
    | Some v => v
    | None => default
    end
  | _ => default
  end.
Proof.
  intros Hs Hk. unfold ConfigLoader.get.
  rewrite (str_split_append _ _ key Hs), (str_split_plain _ _ Hk). simpl.
  destruct (assoc sec c) as [[]|]; reflexivity.
Qed.

Lemma get_of_getitem2 (c : list (string * value)) (sec key : string) (v default : value) :
  str_contains "."%char sec = false ->
  str_contains "."%char key = false ->
  ConfigLoader.getitem2 c sec key = ConfigLoader.Ok v ->
  ConfigLoader.get c (sec ++ String "."%char key) default = v.
Proof.
  intros Hs Hk. rewrite (get_section_key c sec key default Hs Hk).
  unfold ConfigLoader.getitem2.
  destruct (assoc sec c) as [[]|]; try discriminate.
  destruct (assoc key d); [now intros [= <-] | discriminate].
Qed.

(** The five overrides, one after the other: what each leaves under its key. *)
Lemma load_from_env_spec (s : ConfigLoader.surroundings) (c cfg : list (string * value)) :
  ConfigLoader._load_from_env s c = ConfigLoader.Ok cfg ->
  let after name sec key f :=
    ConfigLoader.getitem2 cfg sec key =
    match if_str (ConfigLoader.getenv s name) with
    | Some v => ConfigLoader.Ok (f v)
    | None => ConfigLoader.getitem2 c sec key
    end in
  after "FORGE_REGISTRY_LOCAL_PATH" "registry" "local_path" VStr /\
  after "FORGE_REGISTRY_GLOBAL_PATH" "registry" "global_path" VStr /\
  after "FORGE_REGISTRY_REMOTE_URL" "registry" "remote_url" VStr /\
  after "FORGE_CACHE_ENABLED" "cache" "enabled" (fun v => VBool (ConfigLoader.is_yes s v)) /\
  after "FORGE_LOG_LEVEL" "logging" "level" (fun v => VStr (ConfigLoader.upper s v)).
Proof.
  unfold ConfigLoader._load_from_env, ConfigLoader.and_then.
  destruct (ConfigLoader.env_override s "FORGE_REGISTRY_LOCAL_PATH" _ _ _ c)
    as [c1|] eqn:E1; [|discriminate].
  destruct (ConfigLoader.env_override s "FORGE_REGISTRY_GLOBAL_PATH" _ _ _ c1)
    as [c2|] eqn:E2; [|discriminate].
  destruct (ConfigLoader.env_override s "FORGE_REGISTRY_REMOTE_URL" _ _ _ c2)
    as [c3|] eqn:E3; [|discriminate].
  destruct (ConfigLoader.env_override s "FORGE_CACHE_ENABLED" _ _ _ c3)
    as [c4|] eqn:E4; [|discriminate].
  intros E5.
  pose proof (fun sec' key' => env_override_other _ _ _ _ _ _ _ sec' key' E1) as O1.
  pose proof (fun sec' key' => env_override_other _ _ _ _ _ _ _ sec' key' E2) as O2.
  pose proof (fun sec' key' => env_override_other _ _ _ _ _ _ _ sec' key' E3) as O3.
  pose proof (fun sec' key' => env_override_other _ _ _ _ _ _ _ sec' key' E4) as O4.
  pose proof (fun sec' key' => env_override_other _ _ _ _ _ _ _ sec' key' E5) as O5.
  apply env_override_same in E1, E2, E3, E4, E5.
  repeat split.
  - rewrite O5, O4, O3, O2 by (first [left; discriminate | right; discriminate]). exact E1.
  - rewrite O5, O4, O3 by (first [left; discriminate | right; discriminate]).
    rewrite E2. rewrite O1 by (right; discriminate). reflexivity.
  - rewrite O5, O4 by (first [left; discriminate | right; discriminate]).
    rewrite E3. rewrite O2, O1 by (right; discriminate). reflexivity.
  - rewrite O5 by (left; discriminate).
    rewrite E4. rewrite O3, O2, O1 by (left; discriminate). reflexivity.
  - rewrite E5. rewrite O4, O3, O2, O1 by (left; discriminate). reflexivity.
Qed.

Lemma load_ok_env (s : ConfigLoader.surroundings) (config_path : option string)
      (cfg : list (string * value)) :
  ConfigLoader.load s config_path = ConfigLoader.Ok cfg ->
  exists c, ConfigLoader._load_from_env s c = ConfigLoader.Ok cfg.
Proof.
  rewrite load_unfold. unfold ConfigLoader.and_then.
  destruct (match if_str config_path with Some _ => _ | None => _ end) as [c|];
    [eauto | discriminate].
Qed.

(** X17: the environment wins.  In a configuration that [load] returns,
    each of the five variables FORGE_REGISTRY_LOCAL_PATH, _GLOBAL_PATH,
    _REMOTE_URL, FORGE_CACHE_ENABLED and FORGE_LOG_LEVEL that is set to a
    non-empty string decides its key, whatever the defaults and the
    configuration file say: the three registry keys hold the string,
    cache.enabled holds whether the lowered string is "true", "1" or "yes",
    and logging.level holds the uppered string. *)
Theorem env_overrides_file_and_defaults
        (s : ConfigLoader.surroundings) (config_path : option string)
        (cfg : list (string * value)) (default : value) :
  ConfigLoader.load s config_path = ConfigLoader.Ok cfg ->
  (forall v, env_set s "FORGE_REGISTRY_LOCAL_PATH" v ->
     ConfigLoader.get cfg "registry.local_path" default = VStr v) /\
  (forall v, env_set s "FORGE_REGISTRY_GLOBAL_PATH" v ->
     ConfigLoader.get cfg "registry.global_path" default = VStr v) /\
  (forall v, env_set s "FORGE_REGISTRY_REMOTE_URL" v ->
     ConfigLoader.get cfg "registry.remote_url" default = VStr v) /\
  (forall v, env_set s "FORGE_CACHE_ENABLED" v ->
     ConfigLoader.get cfg "cache.enabled" default =
     VBool (existsb (String.eqb (ConfigLoader.lower s v)) ["true"; "1"; "yes"])) /\
  (forall v, env_set s "FORGE_LOG_LEVEL" v ->
     ConfigLoader.get cfg "logging.level" default = VStr (ConfigLoader.upper s v)).
Proof.
  intros Hload. destruct (load_ok_env s config_path cfg Hload) as [c Henv].
  destruct (load_from_env_spec s c cfg Henv) as (H1 & H2 & H3 & H4 & H5).
  assert (Hset : forall name v, env_set s name v ->
                                if_str (ConfigLoader.getenv s name) = Some v).
  { intros name v [-> Hv]. now apply if_str_some. }
  repeat split; intros v Hv; apply Hset in Hv.
  - rewrite Hv in H1. exact (get_of_getitem2 cfg "registry" "local_path" _ default
                               eq_refl eq_refl H1).
  - rewrite Hv in H2. exact (get_of_getitem2 cfg "registry" "global_path" _ default
                               eq_refl eq_refl H2).
  - rewrite Hv in H3. exact (get_of_getitem2 cfg "registry" "remote_url" _ default
                               eq_refl eq_refl H3).
  - rewrite Hv in H4. exact (get_of_getitem2 cfg "cache" "enabled" _ default
                               eq_refl eq_refl H4).
  - rewrite Hv in H5. exact (get_of_getitem2 cfg "logging" "level" _ default
                               eq_refl eq_refl H5).
Qed.

Lemma env_overrides_file_and_defaults_witness :
  exists cfg,
    ConfigLoader.load (sample_surroundings project_config env_local_path) None
      = ConfigLoader.Ok cfg /\
    ConfigLoader.get cfg "registry.local_path" VNone = VStr "/srv/forge".
Proof.
  eexists. split; [reflexivity|].
  apply (proj1 (env_overrides_file_and_defaults
                  (sample_surroundings project_config env_local_path) None _ VNone
                  eq_refl)).
  split; [reflexivity | discriminate].
Defined.

(** ** The file and the defaults *)

Lemma deep_merge_assoc (target source : list (string * value)) (key : string) :
  NoDup (map fst source) ->
  assoc key (ConfigLoader._deep_merge target source) =
  match assoc key source with
  | Some v =>
    Some match assoc key target, v with
         | Some (VDict sub), VDict s => VDict (ConfigLoader._deep_merge sub s)
         | _, _ => v
         end
  | None => assoc key target
  end.
Proof.
  revert target. induction source as [|[k v] source IH]; intros target Hnd; [reflexivity|].
  inversion Hnd as [|k' l Hk Hnd']; subst. rewrite deep_merge_cons, (IH _ Hnd'). simpl.
  destruct (String.eqb_spec key k) as [->|Hne].
  - rewrite (assoc_not_in k source Hk). apply assoc_dict_set_eq.
  - rewrite assoc_dict_set_ne by congruence. reflexivity.
Qed.

Lemma load_from_env_clean (s : ConfigLoader.surroundings) (c : list (string * value)) :
  env_clean s -> ConfigLoader._load_from_env s c = ConfigLoader.Ok c.
Proof.
  intros H. unfold ConfigLoader._load_from_env.
  do 4 (rewrite env_override_unset by (apply H; simpl; auto 6);
        cbn [ConfigLoader.and_then]).
  apply env_override_unset. apply H. simpl. auto 6.
Qed.

(** X18: the file overrides what it names and nothing else.  With none of
    the five variables set, [load] of a configuration file that is a mapping
    returns the defaults merged with that mapping: a key the file gives in its
    registry section holds the file's value, a registry key the file leaves
    out keeps its default, and a section the file does not mention keeps its
    defaults. *)
Theorem file_overrides_named_keys
        (s : ConfigLoader.surroundings) (path : string) (d : list (string * value)) :
  path <> "" ->
  ConfigLoader.file_at s path = Some (File (YamlDoc (VDict d))) ->
  NoDup (map fst d) ->
  env_clean s ->
  let cfg := ConfigLoader._deep_merge (builtin_defaults s) d in
  ConfigLoader.load s (Some path) = ConfigLoader.Ok cfg /\
  (forall rd default,
     assoc "registry" d = Some (VDict rd) -> NoDup (map fst rd) ->
     (forall v, assoc "local_path" rd = Some v ->
        ConfigLoader.get cfg "registry.local_path" default = v) /\
     (assoc "remote_url" rd = None ->
        ConfigLoader.get cfg "registry.remote_url" default
          = VStr "https://registry.fractary.com")) /\
  (forall default,
     assoc "cache" d = None ->
     ConfigLoader.get cfg "cache.ttl" default = VInt 3600).
Proof.
  intros Hp Hfile Hnd Hclean cfg. split; [|split].
  - rewrite load_unfold, (if_str_some path Hp).
    unfold ConfigLoader._load_from_file. rewrite Hfile.
    assert (Hmerge : (match (if truthy (VDict d) then VDict d else VDict []) with
                      | VDict source =>
                          ConfigLoader.Ok (ConfigLoader._deep_merge (builtin_defaults s) source)
                      | _ => ConfigLoader.Err (ConfigLoader.ConfigError path)
                      end) = ConfigLoader.Ok cfg).
    { destruct d; reflexivity. }
    rewrite Hmerge. simpl. now apply load_from_env_clean.
  - intros rd default Hreg Hrd.
    assert (Hsec : assoc "registry" cfg =
                   Some (VDict (ConfigLoader._deep_merge
                                  [("local_path", VStr "./.forge");
                                   ("global_path", VStr (ConfigLoader.home_dir s ++ "/.forge"));
                                   ("remote_url", VStr "https://registry.fractary.com")] rd))).
    { unfold cfg. rewrite (deep_merge_assoc _ d "registry" Hnd), Hreg. reflexivity. }
    split.
    + intros v Hv.
      change "registry.local_path" with ("registry" ++ String "."%char "local_path")%string.
      rewrite get_section_key by reflexivity. rewrite Hsec.
      rewrite (deep_merge_assoc _ rd "local_path" Hrd), Hv. reflexivity.
    + intros Hnone.
      change "registry.remote_url" with ("registry" ++ String "."%char "remote_url")%string.
      rewrite get_section_key by reflexivity. rewrite Hsec.
      rewrite (deep_merge_assoc _ rd "remote_url" Hrd), Hnone. reflexivity.
  - intros default Hnone.
    change "cache.ttl" with ("cache" ++ String "."%char "ttl")%string.
    rewrite get_section_key by reflexivity.
    unfold cfg. rewrite (deep_merge_assoc _ d "cache" Hnd), Hnone. reflexivity.
Qed.

Lemma project_config_unique_keys :
  NoDup (map fst [("registry", VDict [("local_path", VStr "./registry")])]).
Proof. simpl. repeat constructor. intros []. Qed.

Lemma env_clean_no_env (files : string -> option node) :
  env_clean (sample_surroundings files no_env).
Proof. intros name _. reflexivity. Qed.

Lemma file_overrides_named_keys_witness :
  exists cfg,
    ConfigLoader.load (sample_surroundings project_config no_env)
                      (Some "./.forge/config.yaml") = ConfigLoader.Ok cfg /\
    ConfigLoader.get cfg "registry.local_path" VNone = VStr "./registry" /\
    ConfigLoader.get cfg "registry.remote_url" VNone = VStr "https://registry.fractary.com".
Proof.
  destruct (file_overrides_named_keys (sample_surroundings project_config no_env)
              "./.forge/config.yaml"
              [("registry", VDict [("local_path", VStr "./registry")])]
              ltac:(discriminate) eq_refl project_config_unique_keys
              (env_clean_no_env project_config)) as (Hload & Hreg & _).
  eexists. split; [exact Hload|].
  destruct (Hreg [("local_path", VStr "./registry")] VNone eq_refl) as [Hl Hr].
  { simpl. repeat constructor. intros []. }
  split; [exact (Hl _ eq_refl) | exact (Hr eq_refl)].
Defined.

(** ** What [load] raises *)

Lemma load_from_file_keys (s : ConfigLoader.surroundings) (path : string)
      (c c' : list (string * value)) (k : string) :
  ConfigLoader._load_from_file s path c = ConfigLoader.Ok c' ->
  has_key k c = true -> has_key k c' = true.
Proof.
  unfold ConfigLoader._load_from_file.
  destruct (ConfigLoader.file_at s path) as [[[|v]|es]|]; try discriminate.
  - destruct (if truthy v then v else VDict []); try discriminate.
    intros [= <-]. apply deep_merge_keeps_keys.
  - now intros [= <-].
Qed.

Lemma load_from_file_fails (s : ConfigLoader.surroundings) (path : string)
      (c : list (string * value)) (e : ConfigLoader.raised) :
  ConfigLoader._load_from_file s path c = ConfigLoader.Err e ->
  e = ConfigLoader.ConfigError path /\
  exists n, ConfigLoader.file_at s path = Some n /\ ~ config_file_ok n.
Proof.
  pose proof (load_from_file_cases s path c) as H.
  destruct (ConfigLoader.file_at s path) as [n|]; [|congruence].
  destruct H as [(_ & src & H & _)|(Hbad & H)]; rewrite H; [discriminate|].
  intros [= <-]. eauto.
Qed.

Lemma load_first_cases (s : ConfigLoader.surroundings) (paths : list string)
      (c : list (string * value)) :
  ConfigLoader.load_first s paths c = ConfigLoader.Ok c \/
  exists path, In path paths /\
    ConfigLoader.load_first s paths c = ConfigLoader._load_from_file s path c.
Proof.
  induction paths as [|p paths IH]; simpl; [now left|].
  destruct (ConfigLoader.file_at s p).
  - right. exists p. auto.
  - destruct IH as [IH|(path & Hin & IH)]; [now left|]. right. exists path. auto.
Qed.

Lemma load_from_env_fails (s : ConfigLoader.surroundings) (c : list (string * value))
      (e : ConfigLoader.raised) :
  has_key "registry" c = true -> has_key "cache" c = true -> has_key "logging" c = true ->
  ConfigLoader._load_from_env s c = ConfigLoader.Err e ->
  e = ConfigLoader.TypeError /\ exists name v, env_set s name v.
Proof.
  intros Hr Hc Hl. unfold ConfigLoader._load_from_env, ConfigLoader.and_then.
  assert (Hfail : forall name sec key f c0,
             has_key sec c0 = true ->
             ConfigLoader.env_override s name sec key f c0 = ConfigLoader.Err e ->
             e = ConfigLoader.TypeError /\ exists name v, env_set s name v).
  { intros name sec key f c0 Hk H.
    destruct (env_override_fails s name sec key f c0 e H Hk) as (He & v & Hv). eauto. }
  destruct (ConfigLoader.env_override s "FORGE_REGISTRY_LOCAL_PATH" _ _ _ c)
    as [c1|e1] eqn:E1; [|intros [= <-]; eapply Hfail; [|eassumption]; assumption].
  destruct (ConfigLoader.env_override s "FORGE_REGISTRY_GLOBAL_PATH" _ _ _ c1)
    as [c2|e2] eqn:E2;
    [|intros [= <-]; eapply Hfail; [|eassumption]; eapply env_override_keys; eassumption].
  destruct (ConfigLoader.env_override s "FORGE_REGISTRY_REMOTE_URL" _ _ _ c2)
    as [c3|e3] eqn:E3;
    [|intros [= <-]; eapply Hfail; [|eassumption];
      do 2 (eapply env_override_keys; [eassumption|]); assumption].
  destruct (ConfigLoader.env_override s "FORGE_CACHE_ENABLED" _ _ _ c3)
    as [c4|e4] eqn:E4;
    [|intros [= <-]; eapply Hfail; [|eassumption];
      do 3 (eapply env_override_keys; [eassumption|]); assumption].
  intros H. eapply Hfail; [|eassumption].
  do 4 (eapply env_override_keys; [eassumption|]). assumption.
Qed.

(** X19: what [load] raises.  A configuration file that is read and is not
    a YAML mapping (or an empty document) makes [load] raise [ConfigError]
    with that file's path: a directory, invalid YAML, a list or a scalar.
    Apart from that [load] raises only the [TypeError] of an environment
    override assigning into a section that the file replaced by something
    that is no mapping, which takes one of the variables to be set; a
    [KeyError] never leaves it. *)
Theorem load_exception_contract
        (s : ConfigLoader.surroundings) (config_path : option string) :
  (forall e, ConfigLoader.load s config_path = ConfigLoader.Err e ->
     (exists path n,
        e = ConfigLoader.ConfigError path /\
        ConfigLoader.file_at s path = Some n /\ ~ config_file_ok n /\
        (if_str config_path = Some path \/
         (if_str config_path = None /\ In path (ConfigLoader.default_locations s)))) \/
     (e = ConfigLoader.TypeError /\ exists name v, env_set s name v)) /\
  (forall path n,
     if_str config_path = Some path ->
     ConfigLoader.file_at s path = Some n -> ~ config_file_ok n ->
     ConfigLoader.load s config_path = ConfigLoader.Err (ConfigLoader.ConfigError path)).
Proof.
  split.
  - intros e. rewrite load_unfold. unfold ConfigLoader.and_then.
    destruct (if_str config_path) as [path|] eqn:Hcp.
    + destruct (ConfigLoader._load_from_file s path (builtin_defaults s)) as [c|e0] eqn:Hf.
      * intros He. right.
        apply (load_from_env_fails s c e); [| | |exact He];
          apply (load_from_file_keys s path _ c _ Hf); reflexivity.
      * intros [= <-]. left. apply load_from_file_fails in Hf.
        destruct Hf as (-> & n & Hn & Hbad). exists path, n. auto.
    + destruct (load_first_cases s (ConfigLoader.default_locations s) (builtin_defaults s))
        as [H|(path & Hin & H)]; rewrite H.
      * intros He. right.
        apply (load_from_env_fails s (builtin_defaults s) e); [| | |exact He]; reflexivity.
      * destruct (ConfigLoader._load_from_file s path (builtin_defaults s))
          as [c|e0] eqn:Hf.
        -- intros He. right.
           apply (load_from_env_fails s c e); [| | |exact He];
             apply (load_from_file_keys s path _ c _ Hf); reflexivity.
        -- intros [= <-]. left. apply load_from_file_fails in Hf.
           destruct Hf as (-> & n & Hn & Hbad). exists path, n.
           split; [reflexivity|]. split; [exact Hn|]. split; [exact Hbad|]. right. auto.
  - intros path n Hcp Hn Hbad. rewrite load_unfold, Hcp.
    pose proof (load_from_file_cases s path (builtin_defaults s)) as H. rewrite Hn in H.
    destruct H as [(Hok & _)|(_ & H)]; [contradiction|]. now rewrite H.
Qed.

Lemma load_exception_contract_witness :
  let files := fun p : string => if p =? "broken.yaml" then Some (File YamlError) else None in
  ConfigLoader.load (sample_surroundings files no_env) (Some "broken.yaml")
    = ConfigLoader.Err (ConfigLoader.ConfigError "broken.yaml").
Proof.
  intros files.
  apply (proj2 (load_exception_contract (sample_surroundings files no_env)
                  (Some "broken.yaml")) "broken.yaml" (File YamlError) eq_refl eq_refl).
  intros (v & H & _). discriminate H.
Defined.

(** A registry section replaced by a scalar in the file, with a variable
    set: the override's [TypeError] leaves [load]. *)
Example load_type_error :
  let files := fun p : string =>
                 if p =? "odd.yaml"
                 then Some (File (YamlDoc (VDict [("registry", VInt 5)])))
                 else None in
  ConfigLoader.load (sample_surroundings files env_local_path) (Some "odd.yaml")
    = ConfigLoader.Err ConfigLoader.TypeError.
Proof. reflexivity. Qed.

(** * The definition API *)

Lemma check_fields_mapping (d : list (string * value)) :
  DefinitionAPI.check_fields DefinitionAPI.required_fields (VDict d) =
  match first_missing d with
  | Some field =>
    DefinitionAPI.Err
      (DefinitionAPI.ValidationError DefinitionAPI.MissingRequiredField (Some field) None)
  | None => DefinitionAPI.Ok tt
  end.
Proof.
  unfold first_missing, DefinitionAPI.required_fields, has_key. simpl.
  destruct (assoc "name" d); simpl; [|reflexivity].
  destruct (assoc "version" d); simpl; [|reflexivity].
  destruct (assoc "description" d); reflexivity.
Qed.

(** X20: how [load] of the definition API fails, in the order it checks.
    A path that names no file raises the kind's not-found error with the path
    and leaves the object as it was; a file that is not valid YAML raises
    [ValidationError] with the path, again with the object untouched; a falsy
    document raises "definition is empty"; a non-empty mapping that lacks one
    of name, version, description raises "missing required field" for the
    first one missing in that order.  In the last two cases the object already
    holds the new document as its definition. *)
Theorem api_load_failures
        (s : DefinitionAPI.surroundings) (self : DefinitionAPI.t) (path : string) :
  (DefinitionAPI.file_at s path = None ->
     DefinitionAPI.load s self path =
     (DefinitionAPI.Err (DefinitionAPI.NotFoundError (DefinitionAPI.artifact self)
                                                     (DefinitionAPI.str_of_path s path)),
      self)) /\
  (DefinitionAPI.file_at s path = Some (File YamlError) ->
     DefinitionAPI.load s self path =
     (DefinitionAPI.Err (DefinitionAPI.ValidationError DefinitionAPI.InvalidYAML None
                                                       (Some path)),
      self)) /\
  (forall v, DefinitionAPI.file_at s path = Some (File (YamlDoc v)) -> truthy v = false ->
     DefinitionAPI.load s self path =
     (DefinitionAPI.Err (DefinitionAPI.ValidationError DefinitionAPI.DefinitionIsEmpty
                                                       None None),
      DefinitionAPI.set_definition self v)) /\
  (forall d field,
     DefinitionAPI.file_at s path = Some (File (YamlDoc (VDict d))) ->
     d <> [] -> first_missing d = Some field ->
     DefinitionAPI.load s self path =
     (DefinitionAPI.Err (DefinitionAPI.ValidationError DefinitionAPI.MissingRequiredField
                                                       (Some field) None),
      DefinitionAPI.set_definition self (VDict d))).
Proof.
  unfold DefinitionAPI.load. split; [|split; [|split]].
  - now intros ->.
  - now intros ->.
  - intros v -> Hv. unfold DefinitionAPI._validate_definition. simpl. now rewrite Hv.
  - intros d field -> Hd Hf. unfold DefinitionAPI._validate_definition.
    cbn [DefinitionAPI.definition DefinitionAPI.set_definition].
    assert (Ht : truthy (VDict d) = true) by (destruct d; [contradiction | reflexivity]).
    rewrite Ht. cbn [negb]. now rewrite check_fields_mapping, Hf.
Qed.

Lemma api_load_failures_witness :
  let s := api_surroundings "agent.yaml"
             (YamlDoc (VDict [("name", VStr "a"); ("description", VStr "sample")])) in
  DefinitionAPI.load s (fresh_api Agent) "agent.yaml" =
  (DefinitionAPI.Err (DefinitionAPI.ValidationError DefinitionAPI.MissingRequiredField
                                                    (Some "version") None),
   DefinitionAPI.set_definition (fresh_api Agent)
     (VDict [("name", VStr "a"); ("description", VStr "sample")])) /\
  DefinitionAPI.load s (fresh_api Agent) "other.yaml" =
  (DefinitionAPI.Err (DefinitionAPI.NotFoundError Agent "other.yaml"), fresh_api Agent).
Proof.
  intros s. split.
  - apply (proj2 (proj2 (proj2 (api_load_failures s (fresh_api Agent) "agent.yaml"))));
      [reflexivity | discriminate | reflexivity].
  - apply (proj1 (api_load_failures s (fresh_api Agent) "other.yaml")). reflexivity.
Defined.

Lemma extract_metadata_keeps (s : DefinitionAPI.surroundings) (self self' : DefinitionAPI.t) :
  DefinitionAPI._extract_metadata s self = DefinitionAPI.Ok self' ->
  DefinitionAPI.definition self' = DefinitionAPI.definition self /\
  DefinitionAPI.definition_path self' = DefinitionAPI.definition_path self /\
  DefinitionAPI.artifact self' = DefinitionAPI.artifact self.
Proof.
  unfold DefinitionAPI._extract_metadata, DefinitionAPI.and_then.
  destruct (negb (truthy (DefinitionAPI.definition self))); [now intros [= <-]|].
  destruct (DefinitionAPI.lift (getitem _ "name")); [|discriminate].
  destruct (DefinitionAPI.lift (getitem _ "version")); [|discriminate].
  destruct (DefinitionAPI.lift (dict_get _ "description" _)); [|discriminate].
  destruct (DefinitionAPI.lift (dict_get _ "author" _)); [|discriminate].
  destruct (DefinitionAPI.lift (dict_get _ "tags" _)); [|discriminate].
  destruct (DefinitionAPI.lift (dict_get _ (DefinitionAPI.last_key _) _)); [|discriminate].
  destruct (DefinitionAPI.model s _ _ _ _ _ _ _); [|discriminate].
  now intros [= <-].
Qed.

(** X21: a failed [load] never touches the metadata, the definition path
    or the kind of the object; its definition is either unchanged or the
    document of the file just read. *)
Theorem failed_load_keeps_metadata
        (s : DefinitionAPI.surroundings) (self self' : DefinitionAPI.t) (path : string)
        (e : DefinitionAPI.raised) :
  DefinitionAPI.load s self path = (DefinitionAPI.Err e, self') ->
  DefinitionAPI.metadata self' = DefinitionAPI.metadata self /\
  DefinitionAPI.definition_path self' = DefinitionAPI.definition_path self /\
  DefinitionAPI.artifact self' = DefinitionAPI.artifact self /\
  (DefinitionAPI.definition self' = DefinitionAPI.definition self \/
   DefinitionAPI.file_at s path = Some (File (YamlDoc (DefinitionAPI.definition self')))).
Proof.
  unfold DefinitionAPI.load.
  destruct (DefinitionAPI.file_at s path) as [[[|v]|es]|];
    try (intros [= _ <-]; repeat split; now left).
  destruct (DefinitionAPI._validate_definition _);
    [|intros [= _ <-]; repeat split; now right].
  destruct (DefinitionAPI._extract_metadata s _); [discriminate|].
  intros [= _ <-]. repeat split. now right.
Qed.

Lemma failed_load_keeps_metadata_witness :
  let s := api_surroundings "agent.yaml" (YamlDoc (VDict [("name", VStr "a")])) in
  DefinitionAPI.get_name (snd (DefinitionAPI.load s (fresh_api Agent) "agent.yaml")) =
  DefinitionAPI.Err (DefinitionAPI.ValidationError DefinitionAPI.NothingLoaded None None) /\
  DefinitionAPI.to_dict (snd (DefinitionAPI.load s (fresh_api Agent) "agent.yaml")) =
  VDict [("name", VStr "a")].
Proof.
  intros s.
  destruct (failed_load_keeps_metadata s (fresh_api Agent)
              (snd (DefinitionAPI.load s (fresh_api Agent) "agent.yaml")) "agent.yaml"
              (DefinitionAPI.ValidationError DefinitionAPI.MissingRequiredField
                                             (Some "version") None) eq_refl)
    as (Hm & _).
  split; [|reflexivity].
  unfold DefinitionAPI.get_name. rewrite Hm. reflexivity.
Defined.

(** X22: after a successful [load] the object holds a mapping with the
    three required fields.  The definition is the document of the file, a
    non-empty mapping with name, version and description; the metadata is what
    the metadata model builds from its entries (absent optional entries given
    as None, an empty list and an empty mapping); the definition path is the
    loaded path; [to_dict] is the definition and [get_name], [get_version]
    return the metadata's name and version. *)
Theorem loaded_definition_is_valid
        (s : DefinitionAPI.surroundings) (self self' : DefinitionAPI.t) (path : string) :
  DefinitionAPI.load s self path = (DefinitionAPI.Ok tt, self') ->
  exists d m n v,
    DefinitionAPI.file_at s path = Some (File (YamlDoc (VDict d))) /\
    d <> [] /\ first_missing d = None /\
    assoc "name" d = Some n /\ assoc "version" d = Some v /\
    DefinitionAPI.model s (DefinitionAPI.artifact self) n v
      (match assoc "description" d with Some x => x | None => VNone end)
      (match assoc "author" d with Some x => x | None => VNone end)
      (match assoc "tags" d with Some x => x | None => VList [] end)
      (match assoc (DefinitionAPI.last_key (DefinitionAPI.artifact self)) d with
       | Some x => x
       | None => VDict []
       end) = Some m /\
    self' = DefinitionAPI.mk (DefinitionAPI.artifact self) (Some path) (Some m) (VDict d) /\
    DefinitionAPI.to_dict self' = VDict d /\
    DefinitionAPI.get_name self' = DefinitionAPI.Ok (DefinitionAPI.name m) /\
    DefinitionAPI.get_version self' = DefinitionAPI.Ok (DefinitionAPI.version m).
Proof.
  unfold DefinitionAPI.load.
  destruct (DefinitionAPI.file_at s path) as [[[|doc]|es]|]; try discriminate.
  unfold DefinitionAPI._validate_definition.
  cbn [DefinitionAPI.definition DefinitionAPI.set_definition].
  destruct (truthy doc) eqn:Ht; cbn [negb]; [|discriminate].
  destruct (DefinitionAPI.check_fields _ doc) eqn:Hc; [|discriminate].
  unfold DefinitionAPI._extract_metadata.
  cbn [DefinitionAPI.definition DefinitionAPI.set_definition DefinitionAPI.artifact].
  rewrite Ht. cbn [negb]. unfold DefinitionAPI.and_then.
  destruct doc as [| | | |l|d]; try discriminate.
  rewrite check_fields_mapping in Hc.
  destruct (first_missing d) eqn:Hf; [discriminate|].
  unfold getitem, dict_get, DefinitionAPI.lift.
  destruct (assoc "name" d) as [n|] eqn:Hn; [|discriminate].
  destruct (assoc "version" d) as [v|] eqn:Hv; [|discriminate].
  destruct (assoc "description" d) as [x1|] eqn:H1;
    destruct (assoc "author" d) as [x2|] eqn:H2;
    destruct (assoc "tags" d) as [x3|] eqn:H3;
    destruct (assoc (DefinitionAPI.last_key (DefinitionAPI.artifact self)) d)
      as [x4|] eqn:H4;
    cbv iota beta;
    (destruct (DefinitionAPI.model s _ _ _ _ _ _ _) as [m|] eqn:Hm; [|discriminate]);
    intros [= <-]; exists d, m, n, v;
    rewrite H1, H2, H3, H4;
    (split; [reflexivity|]; split; [intros ->; discriminate Ht|];
     split; [exact Hf|]; split; [exact Hn|]; split; [exact Hv|];
     split; [exact Hm|]; split; [reflexivity|];
     split; [change (DefinitionAPI.to_dict _)
               with (if negb (truthy (VDict d)) then VDict [] else VDict d);
             now rewrite Ht|];
     split; reflexivity).
Qed.

Lemma loaded_definition_is_valid_witness :
  let s := api_surroundings "tool.yaml"
             (YamlDoc (VDict [("name", VStr "fmt"); ("version", VStr "1.0.0");
                              ("description", VStr "formats")])) in
  fst (DefinitionAPI.load s (fresh_api Tool) "tool.yaml") = DefinitionAPI.Ok tt /\
  DefinitionAPI.get_name (snd (DefinitionAPI.load s (fresh_api Tool) "tool.yaml")) =
  DefinitionAPI.Ok "fmt".
Proof.
  intros s. split; [reflexivity|].
  destruct (loaded_definition_is_valid s (fresh_api Tool)
              (snd (DefinitionAPI.load s (fresh_api Tool) "tool.yaml")) "tool.yaml" eq_refl)
    as (d & m & n & v & Hfile & _ & _ & Hn & _ & Hm & _ & _ & Hname & _).
  rewrite Hname. injection Hfile as <-. injection Hn as <-.
  unfold s in Hm. simpl in Hm. unfold sample_model in Hm.
  destruct v; try discriminate. now injection Hm as <-.
Defined.

(** A document that is one string holding the three words passes the
    membership checks of [_validate_definition] and fails in
    [_extract_metadata], subscripting a string. *)
Example scalar_document_is_a_type_error :
  fst (DefinitionAPI.load
         (api_surroundings "a.yaml" (YamlDoc (VStr "name version description")))
         (fresh_api Agent) "a.yaml")
  = DefinitionAPI.Err (DefinitionAPI.Builtin TypeError).
Proof. reflexivity. Qed.
